(** * Pond: events, grouping/reduction and the gap filler

    A shallow embedding of [src/pond/lib/event.js] and [src/filler.js].

    JavaScript values are a closed universe [Val]: the primitives, dates,
    plain arrays and objects, and the two Immutable collections the code
    uses.  Numbers are exact rationals together with NaN.  A thrown
    exception is an [Err] of the [Result] monad, and a loop whose body may
    throw is a monadic fold.

    Plain objects and Immutable maps are association lists with string
    keys.  The list of a plain object holds its own properties in the order
    they were created, and
    - the engine enumerates them with the array indices first, in ascending
      order, and the other names after them in order of creation
      ([own_entries]);
    - reading [o[k]] finds the members of Object.prototype where [o] has no
      property of its own ([inherited]), and assigning to [o["__proto__"]]
      replaces the prototype instead of creating a property ([assign]);
    - underscore's [each] and [map] walk an object that has a numeric
      [length] by index, as they walk an array ([each_entries],
      [map_entries]).
    The list of an Immutable.Map holds its entries in iteration order, which
    is the order of insertion for a Map of up to eight entries; a larger
    Map iterates in hash order, which is not modelled, so that what a
    statement says of the entries of a Map beyond [lookup] is said for up
    to eight of them.  Immutable is the 3.8 line: [toJSON] is deep, a List
    reads a string key as an array index, and [fromJS] converts the objects
    whose [constructor] is Object or undefined.

    The name __proto__ stands apart.  Where an Event function would assign
    to it, or enumerate an object whose prototype the assignment has
    replaced, the function answers [OutsideModel].  An entry of that name
    in a Map, which [toJS] would not carry over, is kept out by the
    condition [canonical].  The counter of a Filler path keyed by that name
    is not stored ([Filler.store]) and never reaches the limit
    ([Filler.limit_hit_at]).

    Where the code would do something to a value that has no place in this
    universe, the function answers [OutsideModel].  The classes and helpers
    the two files import but that are not among the sources are modelled
    from the specification and marked so. *)

From Stdlib Require Import ZArith QArith Qround List String Ascii Bool Lia.
From Stdlib Require Import Permutation.
From Stdlib Require Import DecimalString DecimalZ DecimalPos.
Import ListNotations.
Open Scope string_scope.
Open Scope list_scope.

Set Implicit Arguments.
Set Warnings "-register-all".

(** ** Exceptions *)

Inductive Error : Type :=
| TimestampError                  (* "Unable to get timestamp from ..." *)
| DataError                       (* "Unable to interpret event data from ..." *)
| NotHomogeneous (key : string)   (* "Events for time ... are not homogeneous" *)
| UnknownEventList                (* "Unknown event list type. ..." *)
| UnknownArg                      (* "Unknown arg to Filler constructor" *)
| UnknownMethod (m : string)      (* "Unknown method ... passed to Filler" *)
| LinearSingleColumn              (* "Linear fill takes a path to a single column" *)
| InvalidKeyPath                  (* Immutable's invariant "invalid keyPath" *)
| TypeError (what : string)       (* raised by the language itself *)
| RangeError (what : string)      (* "Invalid array length" *)
| OutsideModel (what : string).   (* an input shape the value universe leaves out *)



Inductive Result (A : Type) : Type :=
| Ok (a : A)
| Err (e : Error).

Arguments Ok {A} a.
Arguments Err {A} e.

Definition bind {A B} (c : Result A) (k : A -> Result B) : Result B :=
  match c with
  | Ok a => k a
  | Err e => Err e
  end.

Notation "x <- c ;; k" := (bind c (fun x => k))
  (at level 61, c at next level, right associativity).
Notation "' pat <- c ;; k" := (bind c (fun x => match x with pat => k end))
  (at level 61, pat pattern, c at next level, right associativity).

(** [forEach] with a body that may throw: the loop state is threaded left
    to right and the first exception ends the loop. *)
Fixpoint foldM {A S} (f : S -> A -> Result S) (l : list A) (s : S) : Result S :=
  match l with
  | [] => Ok s
  | a :: l' => s' <- f s a ;; foldM f l' s'
  end.

(** [array.map] with a callback that may throw. *)
Fixpoint mapM {A B} (f : A -> Result B) (l : list A) : Result (list B) :=
  match l with
  | [] => Ok []
  | a :: l' => b <- f a ;; bs <- mapM f l' ;; Ok (b :: bs)
  end.

(** ** Records keyed by strings: plain objects and Immutable maps *)

Section Props.
Variable V : Type.

Definition Props : Type := list (string * V).

Fixpoint lookup (k : string) (o : Props) : option V :=
  match o with
  | [] => None
  | (k', v) :: o' => if String.eqb k k' then Some v else lookup k o'
  end.

Definition has (k : string) (o : Props) : bool :=
  match lookup k o with Some _ => true | None => false end.

(** [o[k] = v]: an existing key keeps its place, a new one goes last. *)
Fixpoint set (k : string) (v : V) (o : Props) : Props :=
  match o with
  | [] => [(k, v)]
  | (k', v') :: o' =>
      if String.eqb k k' then (k', v) :: o' else (k', v') :: set k v o'
  end.

Definition keys (o : Props) : list string := List.map fst o.
End Props.

Arguments lookup {V} k o.
Arguments has {V} k o.
Arguments set {V} k v o.
Arguments keys {V} o.

(** [o[k] = v] on a plain object, for a name [k] that is given at run time:
    under the name __proto__ the assignment replaces the prototype of [o]
    and creates no property. *)
Definition assign {V} (k : string) (v : V) (o : Props V) : Result (Props V) :=
  if String.eqb k "__proto__"
  then Err (OutsideModel "an assignment to __proto__")
  else Ok (set k v o).

(** The members every plain object inherits from Object.prototype. *)
Definition Object_prototype : list string :=
  ["constructor"; "__defineGetter__"; "__defineSetter__"; "hasOwnProperty";
   "__lookupGetter__"; "__lookupSetter__"; "isPrototypeOf";
   "propertyIsEnumerable"; "toString"; "valueOf"; "__proto__"; "toLocaleString"].

Definition inherited (k : string) : bool :=
  existsb (String.eqb k) Object_prototype.

(** ** Values *)

(** A time value: [Some ms] since the epoch, [None] for an invalid date
    (whose [getTime()] is NaN). *)
Definition TimeValue : Type := option Z.

Inductive Val : Type :=
| VUndefined
| VNull
| VBool (b : bool)
| VNum (q : Q)
| VNaN
| VStr (s : string)
| VDate (t : TimeValue)
| VArr (items : list Val)                 (* plain array *)
| VObj (props : list (string * Val))      (* plain object *)
| VList (items : list Val)                (* Immutable.List *)
| VMap (entries : list (string * Val)).   (* Immutable.Map *)

Definition isObject (v : Val) : bool :=
  match v with
  | VDate _ | VArr _ | VObj _ | VList _ | VMap _ => true
  | _ => false
  end.

Definition isNumber (v : Val) : bool :=
  match v with VNum _ | VNaN => true | _ => false end.

Definition isString (v : Val) : bool :=
  match v with VStr _ => true | _ => false end.

(** *** Numbers, dates and their strings *)

Definition Ztrunc (q : Q) : Z := Z.quot (Qnum q) (Zpos (Qden q)).

Definition maxTime : Z := 8640000000000000.

(** [new Date(x)] for a number [x]: TimeClip. *)
Definition timeclip (v : Val) : TimeValue :=
  match v with
  | VNum q => let z := Ztrunc q in
              if (Z.abs z <=? maxTime)%Z then Some z else None
  | _ => None
  end.

Definition number_of_time (t : TimeValue) : Val :=
  match t with
  | Some z => VNum (inject_Z z)
  | None => VNaN
  end.

Definition string_of_Z (z : Z) : string := NilZero.string_of_int (Z.to_int z).

(** ToString of the number [getTime()] returns: an integer or NaN. *)
Definition string_of_time (t : TimeValue) : string :=
  match t with
  | Some z => string_of_Z z
  | None => "NaN"
  end.

(** Unary [+] on a string, for decimal integer literals; the empty string
    is 0 and every other string is read as NaN (literals with a fraction,
    an exponent, a radix prefix or surrounding blanks are not modelled: the
    strings this is applied to were printed by [string_of_time]). *)
Definition ToNumber (s : string) : Val :=
  match s with
  | "" => VNum 0
  | _ => match NilZero.int_of_string s with
         | Some d => VNum (inject_Z (Z.of_int d))
         | None => VNaN
         end
  end.

(** *** Date.prototype.toISOString *)

Definition civil_from_days (days : Z) : Z * Z * Z :=
  let z := (days + 719468)%Z in
  let era := (z / 146097)%Z in
  let doe := (z - era * 146097)%Z in
  let yoe := ((doe - doe / 1460 + doe / 36524 - doe / 146096) / 365)%Z in
  let doy := (doe - (365 * yoe + yoe / 4 - yoe / 100))%Z in
  let mp := ((5 * doy + 2) / 153)%Z in
  let d := (doy - (153 * mp + 2) / 5 + 1)%Z in
  let m := if (mp <? 10)%Z then (mp + 3)%Z else (mp - 9)%Z in
  let y := (yoe + era * 400)%Z in
  (if (m <=? 2)%Z then (y + 1)%Z else y, m, d).

Fixpoint zeros (n : nat) : string :=
  match n with O => "" | S n' => String "0" (zeros n') end.

(** A natural number in at least [w] digits. *)
Definition pad (w : nat) (z : Z) : string :=
  let s := string_of_Z z in
  (zeros (w - String.length s) ++ s)%string.

Definition Date_toISOString (ms : Z) : string :=
  let days := (ms / 86400000)%Z in
  let rest := (ms mod 86400000)%Z in
  let '(y, m, d) := civil_from_days days in
  let year := if ((0 <=? y) && (y <=? 9999))%Z then pad 4 y
              else if (y <? 0)%Z then String.append "-" (pad 6 (- y))
              else String.append "+" (pad 6 y) in
  String.concat ""
    [year; "-"; pad 2 m; "-"; pad 2 d; "T";
     pad 2 (rest / 3600000); ":"; pad 2 ((rest / 60000) mod 60); ":";
     pad 2 ((rest / 1000) mod 60); "."; pad 3 (rest mod 1000); "Z"].

(** *** Property names in the order the engine enumerates them *)

(** An array index: the canonical decimal of a whole number from 0 to
    2^32 - 2.  It is what a List reads a string key as (Immutable's
    wrapIndex), and what the engine enumerates first among the names of an
    object. *)
Definition array_index (k : string) : option nat :=
  match NilZero.int_of_string k with
  | Some d =>
      let z := Z.of_int d in
      if (String.eqb (string_of_Z z) k && (0 <=? z)%Z && (z <? 4294967295)%Z)%bool
      then Some (Z.to_nat z) else None
  | None => None
  end.

(** [k] is enumerated before [k'], whenever the two were created: an index
    before a greater index and before every other name. *)
Definition before (k k' : string) : bool :=
  match array_index k, array_index k' with
  | Some i, Some j => (i <? j)%nat
  | Some _, None => true
  | None, _ => false
  end.

Section OwnEntries.
Variable V : Type.

(** One more property among those enumerated so far. *)
Fixpoint place (kv : string * V) (o : Props V) : Props V :=
  match o with
  | [] => [kv]
  | kv' :: o' => if before (fst kv) (fst kv') then kv :: o else kv' :: place kv o'
  end.

(** [Object.keys(o)] with the values: the own properties of [o] as the
    engine enumerates them. *)
Definition own_entries (o : Props V) : Props V :=
  fold_left (fun acc kv => place kv acc) o [].
End OwnEntries.

Arguments place {V} kv o.
Arguments own_entries {V} o.

(** *** Conversions between plain and Immutable values *)

(** Immutable's isPlainObj: [o.constructor] is Object, which an object
    without a [constructor] of its own inherits, or undefined. *)
Definition isPlainObj (o : Props Val) : bool :=
  match lookup "constructor" o with
  | None | Some VUndefined => true
  | Some _ => false
  end.

(** [Immutable.fromJS]: arrays and plain objects are converted deeply, an
    object into a Map of its own properties as enumerated; everything else
    is kept. *)
Fixpoint fromJS (v : Val) : Val :=
  match v with
  | VArr l => VList (List.map fromJS l)
  | VObj o =>
      if isPlainObj o
      then VMap (own_entries
                   (List.map (fun kv : string * Val => let (k, x) := kv in (k, fromJS x))
                             o))
      else v
  | _ => v
  end.

(** [toJS()]: the inverse walk through Immutable collections. *)
Fixpoint toJS (v : Val) : Val :=
  match v with
  | VList l => VArr (List.map toJS l)
  | VMap m => VObj (List.map (fun kv : string * Val => let (k, x) := kv in (k, toJS x)) m)
  | _ => v
  end.

(** [toJSON()]: as [toJS], and a date answers with its ISO string (null
    for an invalid date). *)
Fixpoint toJSON (v : Val) : Val :=
  match v with
  | VList l => VArr (List.map toJSON l)
  | VMap m => VObj (List.map (fun kv : string * Val => let (k, x) := kv in (k, toJSON x)) m)
  | VDate (Some ms) => VStr (Date_toISOString ms)
  | VDate None => VNull
  | _ => v
  end.

(** *** Immutable collections: reading and writing along a path *)

Definition Entries : Type := list (string * Val).

(** [map.get(k)] *)
Definition Map_get (m : Entries) (k : string) : Val :=
  match lookup k m with
  | Some v => v
  | None => VUndefined
  end.

(** [v.get(k, NOT_SET)], with [None] for NOT_SET; a value without a [get]
    method also answers NOT_SET inside [getIn]. *)
Definition get_opt (v : Val) (k : string) : option Val :=
  match v with
  | VMap m => lookup k m
  | VList l => match array_index k with
               | Some i => nth_error l i
               | None => None
               end
  | _ => None
  end.

Fixpoint getIn_opt (v : Val) (path : list string) : option Val :=
  match path with
  | [] => Some v
  | k :: path' =>
      match get_opt v k with
      | Some x => getIn_opt x path'
      | None => None
      end
  end.

Fixpoint replace_nth (i : nat) (x : Val) (l : list Val) : list Val :=
  match l, i with
  | [], _ => []
  | _ :: l', O => x :: l'
  | y :: l', S i' => y :: replace_nth i' x l'
  end.

(** [list.set(k, x)]: a key that is no index leaves the list alone, an
    index past the end grows the list with undefined. *)
Definition List_set (k : string) (x : Val) (l : list Val) : list Val :=
  match array_index k with
  | None => l
  | Some i =>
      if (i <? List.length l)%nat then replace_nth i x l
      else l ++ repeat VUndefined (i - List.length l) ++ [x]
  end.

(** [updateInDeepMap] with the constant updater of [setIn]. *)
Fixpoint setIn_opt (existing : option Val) (path : list string) (v : Val)
  : Result Val :=
  match path with
  | [] => Ok v
  | k :: path' =>
      match existing with
      | None => x <- setIn_opt None path' v ;; Ok (VMap [(k, x)])
      | Some (VMap m) => x <- setIn_opt (lookup k m) path' v ;; Ok (VMap (set k x m))
      | Some (VList l) =>
          x <- setIn_opt (get_opt (VList l) k) path' v ;; Ok (VList (List_set k x l))
      | Some _ => Err InvalidKeyPath
      end
  end.

(** A method of Immutable collections called on [v]: a TypeError unless [v]
    is one. *)
Definition collection (v : Val) : Result Val :=
  match v with
  | VMap _ | VList _ => Ok v
  | _ => Err (TypeError "not an Immutable collection")
  end.

Definition hasIn (v : Val) (path : list string) : Result bool :=
  c <- collection v ;;
  Ok (match getIn_opt c path with Some _ => true | None => false end).

Definition getIn (v : Val) (path : list string) : Result Val :=
  c <- collection v ;;
  Ok (match getIn_opt c path with Some x => x | None => VUndefined end).

Definition setIn (v : Val) (path : list string) (x : Val) : Result Val :=
  c <- collection v ;; setIn_opt (Some c) path x.

(** [map.merge(other)]: every entry of [other] is set on [map], one level
    deep.  Undefined, null and a date bring no entries; a plain object
    brings its converted properties; a primitive is a TypeError.  A string,
    array or List would be read as a sequence of [k, v] pairs, which the
    model leaves out. *)
Definition Map_merge (m : Entries) (other : Val) : Result Entries :=
  match other with
  | VMap o => Ok (fold_left (fun acc kv => set (fst kv) (snd kv) acc) o m)
  | VObj o => Ok (fold_left (fun acc kv => set (fst kv) (fromJS (snd kv)) acc) o m)
  | VUndefined | VNull | VDate _ => Ok m
  | VBool _ | VNum _ | VNaN => Err (TypeError "Expected Array or iterable object")
  | VStr _ | VArr _ | VList _ => Err (OutsideModel "merge of a sequence of entries")
  end.

(** The deep merge of the specification, to compare [Map_merge] with: where
    both sides hold a mapping under one key the two are merged recursively,
    otherwise the later value replaces the earlier one. *)
Fixpoint deep_merge (a b : Val) {struct b} : Val :=
  match a, b with
  | VMap ma, VMap mb =>
      VMap ((fix go (mb : Entries) (acc : Entries) {struct mb} : Entries :=
               match mb with
               | [] => acc
               | (k, y) :: mb' =>
                   go mb' (set k (match lookup k acc with
                                  | Some x => deep_merge x y
                                  | None => y
                                  end) acc)
               end) mb ma)
  | _, _ => b
  end.

(** ** util *)

Inductive FieldPath : Type :=
| FPOmitted
| FPString (s : string)
| FPArray (l : list string).

(** [s.split(sep)] for a one-character separator. *)
Fixpoint split_on (sep : ascii) (s : string) : list string :=
  match s with
  | EmptyString => [""]
  | String c r =>
      if Ascii.eqb c sep then "" :: split_on sep r
      else match split_on sep r with
           | h :: t => String c h :: t
           | [] => [String c ""]
           end
  end.

(** Modelled from the spec: [util.fieldPathToArray] is not in the sources.
    A field path is a dot-separated string, an array of segments, or is
    omitted and then defaults to ["value"]. *)
Definition fieldPathToArray (p : FieldPath) : list string :=
  match p with
  | FPOmitted => ["value"]
  | FPString s => split_on "." s
  | FPArray l => l
  end.

(** Modelled from the spec: [util.isMissing] is not in the sources.  True
    for absent, null and not-a-number; false otherwise, including 0 and the
    empty string. *)
Definition isMissing (v : Val) : bool :=
  match v with
  | VUndefined | VNull | VNaN => true
  | _ => false
  end.

(** Modelled from the spec: [util.generatePaths] is not in the sources.
    Every leaf field path present in a plain structure, a leaf being any
    value that is not a mapping. *)
Fixpoint generatePaths (v : Val) : list (list string) :=
  match v with
  | VObj o =>
      flat_map (fun kv : string * Val =>
                  let (k, x) := kv in
                  match x with
                  | VObj _ => List.map (cons k) (generatePaths x)
                  | _ => [[k]]
                  end) o
  | _ => []
  end.

(** ** Event data and timestamps (the helpers at the end of event.js) *)

(** What a constructor may receive as its first argument. *)
Inductive Arg (E : Type) : Type :=
| AEvent (other : E)          (* an event of the class being built *)
| AMoment (t : TimeValue)     (* a moment, by its [valueOf()] *)
| AVal (v : Val).

Arguments AEvent {E} other.
Arguments AMoment {E} t.
Arguments AVal {E} v.

Definition timestampFromArg {E} (arg : Arg E) : Result Val :=
  match arg with
  | AVal (VNum q) => Ok (VDate (timeclip (VNum q)))
  | AVal VNaN => Ok (VDate None)
  | AVal (VDate t) => Ok (VDate t)
  | AMoment t => Ok (VDate t)
  | _ => Err TimestampError
  end.

(** The second branch tests [data], still undefined there, against
    Immutable.Map and so never holds; an Immutable.Map is an object and is
    taken by the first branch, where [fromJS] hands it back as it is. *)
Definition dataFromArg (arg : Val) : Result Val :=
  if isObject arg then Ok (fromJS arg)
  else if (isNumber arg || isString arg)%bool then Ok (VMap [("value", arg)])
  else Err DataError.

(** [date.getTime()] on whatever [timestamp()] returned. *)
Definition getTime (v : Val) : Result TimeValue :=
  match v with
  | VDate t => Ok t
  | _ => Err (TypeError "getTime is not a function")
  end.

(** [data.toJSON()] on an event's data.  (A date also has a [toJSON]; the
    string it returns would then be walked as a sequence of characters.) *)
Definition data_toJSON (d : Val) : Result Val :=
  match d with
  | VDate _ => Err (OutsideModel "a date as event data")
  | _ => c <- collection d ;; Ok (toJSON c)
  end.

(** *** underscore: walking a collection *)

(** The key a callback of [each] or [map] is given: a property name, or a
    number where the collection is walked by index. *)
Inductive Key : Type :=
| KString (s : string)
| KNumber (i : nat).

(** The property name a key stands for in [o[key]]. *)
Definition Key_toString (k : Key) : string :=
  match k with
  | KString s => s
  | KNumber i => string_of_Z (Z.of_nat i)
  end.

(** underscore's isArrayLike on an object: its [length] is a number from 0
    to 2^53 - 1. *)
Definition array_like (o : Props Val) : option Q :=
  match lookup "length" o with
  | Some (VNum q) =>
      if (Qle_bool 0 q && Qle_bool q (inject_Z (2 ^ 53 - 1)))%bool then Some q else None
  | _ => None
  end.

(** [o[i]] with its index. *)
Definition at_index (o : Props Val) (i : nat) : Key * Val :=
  (KNumber i, match lookup (string_of_Z (Z.of_nat i)) o with
              | Some x => x
              | None => VUndefined
              end).

Fixpoint indexed (i : nat) (l : list Val) : list (Key * Val) :=
  match l with
  | [] => []
  | x :: l' => (KNumber i, x) :: indexed (S i) l'
  end.

Fixpoint characters (s : string) : list Val :=
  match s with
  | EmptyString => []
  | String c s' => VStr (String c "") :: characters s'
  end.

(** [_.each(v, f)]: the (key, value) pairs [f] is called with.  An array, a
    string and an array-like object are walked by index from 0 while the
    index is below the length; another object by its own properties as
    enumerated; null, undefined, numbers, booleans and dates have nothing
    to walk. *)
Definition each_entries (v : Val) : Result (list (Key * Val)) :=
  match v with
  | VArr l => Ok (indexed 0 l)
  | VStr s => Ok (indexed 0 (characters s))
  | VObj o =>
      match array_like o with
      | Some q => Ok (List.map (at_index o) (seq 0 (Z.to_nat (Qceiling q))))
      | None => Ok (List.map (fun kv : string * Val => (KString (fst kv), snd kv))
                             (own_entries o))
      end
  | VList _ | VMap _ => Err (OutsideModel "the members of an Immutable collection")
  | _ => Ok []
  end.

(** [_.map(v, f)]: as [each], but the results go into [Array(length)], which
    throws unless the length is a whole number below 2^32. *)
Definition map_entries (v : Val) : Result (list (Key * Val)) :=
  match v with
  | VObj o =>
      match array_like o with
      | Some q =>
          if (Qeq_bool q (inject_Z (Qfloor q))
              && Qle_bool q (inject_Z (2 ^ 32 - 1)))%bool
          then each_entries v
          else Err (RangeError "Invalid array length")
      | None => each_entries v
      end
  | _ => each_entries v
  end.

(** [data.get(k)] on an event's data.  The keys of a Map are strings, so a
    number finds nothing in it; a List reads both. *)
Definition data_get (d : Val) (k : Key) : Result Val :=
  c <- collection d ;;
  Ok (match k, c with
      | KNumber i, VList l => nth i l VUndefined
      | KNumber _, _ => VUndefined
      | KString s, _ => match get_opt c s with Some x => x | None => VUndefined end
      end).

(** [o[k].push(x)] *)
Fixpoint push {A} (k : string) (x : A) (o : Props (list A)) : Props (list A) :=
  match o with
  | [] => []
  | (k', l) :: o' =>
      if String.eqb k k' then (k', l ++ [x]) :: o' else (k', l) :: push k x o'
  end.

(** ** The two other event classes *)

(** Modelled from the spec: [TimeRange] is not in the sources.  A begin/end
    pair of instants, built here from two numbers. *)
Module TimeRange.
Record t : Type := mk { tr_begin : TimeValue; tr_end : TimeValue }.

Definition new (b e : Val) : t := mk (timeclip b) (timeclip e).
End TimeRange.

(** Modelled from the spec: [TimeRangeEvent] is not in the sources.  An
    immutable pair of a time range and a data value; the data source is
    converted as for a point event, and [setData] keeps the identity. *)
Module TimeRangeEvent.
Record t : Type := mk { timerange : TimeRange.t; data : Val }.

Definition new (range : TimeRange.t) (arg2 : Val) : Result t :=
  d <- dataFromArg arg2 ;; Ok (mk range d).

Definition setData (e : t) (arg : Val) : Result t :=
  d <- dataFromArg arg ;; Ok (mk (timerange e) d).
End TimeRangeEvent.

(** Modelled from the spec: [IndexedEvent] is not in the sources.  An
    immutable pair of an opaque index identifier and a data value (the UTC
    flag plays no part in what follows and is left out). *)
Module IndexedEvent.
Record t : Type := mk { index : string; data : Val }.

Definition new (idx : string) (arg2 : Val) : Result t :=
  d <- dataFromArg arg2 ;; Ok (mk idx d).

Definition setData (e : t) (arg : Val) : Result t :=
  d <- dataFromArg arg ;; Ok (mk (index e) d).
End IndexedEvent.

(** ** class Event *)

Module Event.

(** [_d] is an Immutable.Map. *)
Record t : Type := mk { _d : Entries }.

Definition new (arg1 : Arg t) (arg2 : Val) : Result t :=
  match arg1 with
  | AEvent other => Ok (mk (_d other))
  | _ =>
      let fromParts :=
        time <- timestampFromArg arg1 ;;
        data <- dataFromArg arg2 ;;
        Ok (mk [("time", time); ("data", data)]) in
      match arg1 with
      | AVal (VMap m) =>
          if (has "time" m && has "data" m)%bool then Ok (mk m) else fromParts
      | _ => fromParts
      end
  end.

Definition timestamp (e : t) : Val := Map_get (_d e) "time".

Definition data (e : t) : Val := Map_get (_d e) "data".

Definition setData (e : t) (data : Val) : Result t :=
  x <- dataFromArg data ;;
  let d := set "data" x (_d e) in
  new (AVal (VMap d)) VUndefined.

(** The three kinds of event seen by the static methods, and the class
    recorded for each key. *)
Inductive Any : Type :=
| Point (e : t)
| Indexed (e : IndexedEvent.t)
| Interval (e : TimeRangeEvent.t).

Inductive Class : Type := CEvent | CIndexedEvent | CTimeRangeEvent.

Definition Class_eqb (a b : Class) : bool :=
  match a, b with
  | CEvent, CEvent | CIndexedEvent, CIndexedEvent
  | CTimeRangeEvent, CTimeRangeEvent => true
  | _, _ => false
  end.

Definition data_of (e : Any) : Val :=
  match e with
  | Point e => data e
  | Indexed e => IndexedEvent.data e
  | Interval e => TimeRangeEvent.data e
  end.

Definition setData_of (e : Any) (d : Val) : Result Any :=
  match e with
  | Point e => e' <- setData e d ;; Ok (Point e')
  | Indexed e => e' <- IndexedEvent.setData e d ;; Ok (Indexed e')
  | Interval e => e' <- TimeRangeEvent.setData e d ;; Ok (Interval e')
  end.

(** [get(fieldPath)], the same for the three classes. *)
Definition get (e : Any) (fieldPath : FieldPath) : Result Val :=
  let fspec := fieldPathToArray fieldPath in
  v <- getIn (data_of e) fspec ;;
  Ok (match v with
      | VMap _ | VList _ => toJS v
      | _ => v
      end).

Definition isValidValue (e : Any) (fieldPath : FieldPath) : Result bool :=
  v <- get e fieldPath ;;
  Ok (negb (match v with VUndefined | VNaN | VNull => true | _ => false end)).

(** *** Grouping by key, shared by [merge] and [combine] *)

Definition class_and_key (e : Any) : Result (Class * string) :=
  match e with
  | Point e =>
      time <- getTime (timestamp e) ;; Ok (CEvent, string_of_time time)
  | Indexed e => Ok (CIndexedEvent, IndexedEvent.index e)
  | Interval e =>
      let r := TimeRangeEvent.timerange e in
      Ok (CTimeRangeEvent,
          String.concat "" [string_of_time (TimeRange.tr_begin r); ",";
                            string_of_time (TimeRange.tr_end r)])
  end.

Definition Groups : Type := (Props (list Any) * Props Class)%type.

(** The body of the first [events.forEach]. *)
Definition group_step (maps : Groups) (e : Any) : Result Groups :=
  let (eventMap, typeMap) := maps in
  '(type, key) <- class_and_key e ;;
  let eventMap := if negb (has key eventMap) then set key [] eventMap
                  else eventMap in
  let eventMap := push key e eventMap in
  match lookup key typeMap with
  | None => Ok (eventMap, set key type typeMap)
  | Some type' =>
      if negb (Class_eqb type' type) then Err (NotHomogeneous key)
      else Ok (eventMap, typeMap)
  end.

Definition ToNumber_opt (s : option string) : Val :=
  match s with
  | Some s => ToNumber s
  | None => VNaN
  end.

(** The output event for [key], of the class recorded for it. *)
Definition build (typeMap : Props Class) (key : string) (data : Val)
           (outEvents : list Any) : Result (list Any) :=
  match lookup key typeMap with
  | Some CEvent =>
      let timestamp := ToNumber key in
      e <- new (AVal timestamp) data ;; Ok (outEvents ++ [Point e])
  | Some CIndexedEvent =>
      let index := key in
      e <- IndexedEvent.new index data ;; Ok (outEvents ++ [Indexed e])
  | Some CTimeRangeEvent =>
      let parts := split_on "," key in
      let timerange := TimeRange.new (ToNumber_opt (nth_error parts 0))
                                     (ToNumber_opt (nth_error parts 1)) in
      e <- TimeRangeEvent.new timerange data ;; Ok (outEvents ++ [Interval e])
  | None => Ok outEvents
  end.

(** [_.each(eventMap, ...)]: the groups as the engine enumerates the keys of
    [eventMap].  (The first loop would have replaced the prototype of
    [eventMap] for a key named __proto__.) *)
Definition each_group (eventMap : Props (list Any)) : Result (Props (list Any)) :=
  if has "__proto__" eventMap
  then Err (OutsideModel "an event key named __proto__")
  else Ok (own_entries eventMap).

Definition merge (events : list Any) : Result (list Any) :=
  if (List.length events =? 0)%nat then Ok []
  else
    '(eventMap, typeMap) <- foldM group_step events ([], []) ;;
    groups <- each_group eventMap ;;
    foldM (fun outEvents kv =>
             let '(key, events) := kv in
             data <- foldM (fun data event => Map_merge data (data_of event))
                           events [] ;;
             build typeMap key (VMap data) outEvents)
          groups [].

Inductive FieldSpec : Type :=
| FUnset
| FString (s : string)
| FArray (l : list string).

(** The body of [fields.forEach] in [combine]:
    [if (!mapEvent[fieldName]) mapEvent[fieldName] = [];
     mapEvent[fieldName].push(event.data().get(fieldName))].
    The test reads through the prototype: under the name of a member of
    Object.prototype it finds that member, no list is created, and there is
    no [push] to call once the argument has been evaluated. *)
Definition collect_value (event : Any) (mapEvent : Props (list Val)) (fieldName : Key)
  : Result (Props (list Val)) :=
  let name := Key_toString fieldName in
  let mapEvent := if negb (has name mapEvent || inherited name)
                  then set name [] mapEvent
                  else mapEvent in
  v <- data_get (data_of event) fieldName ;;
  if has name mapEvent then Ok (push name v mapEvent)
  else Err (TypeError "mapEvent[fieldName].push is not a function").

Definition combine (events : list Any) (fieldSpec : FieldSpec)
           (reducer : list Val -> Result Val) : Result (list Any) :=
  if (List.length events =? 0)%nat then Ok []
  else
    let fieldNames := match fieldSpec with
                      | FString s => Some [s]
                      | FArray l => Some l
                      | FUnset => None
                      end in
    '(eventMap, typeMap) <- foldM group_step events ([], []) ;;
    groups <- each_group eventMap ;;
    foldM (fun outEvents kv =>
             let '(key, events) := kv in
             mapEvent <-
               foldM (fun mapEvent event =>
                        fields <- match fieldNames with
                                  | Some names => Ok (List.map KString names)
                                  | None =>
                                      json <- data_toJSON (data_of event) ;;
                                      entries <- map_entries json ;;
                                      Ok (List.map fst entries)
                                  end ;;
                        foldM (collect_value event) fields mapEvent)
                     events [] ;;
             d <- foldM (fun d kv' =>
                           let '(fieldName, values) := kv' in
                           r <- reducer values ;; Ok (set fieldName r d))
                        (own_entries mapEvent) [] ;;
             build typeMap key (VObj d) outEvents)
          groups [].

(** *** map, reduce *)

Inductive EventList : Type :=
| ImmutableList (l : list Any)
| JSArray (l : list Any)
| NoList.

(** The second argument of [map] when one is passed. *)
Inductive MultiFieldSpec : Type :=
| MString (s : string)
| MArray (l : list string)
| MFunction (f : Any -> Val)
| MOther.                                    (* e.g. null *)

(** [if (!_.has(result, key)) result[key] = []; result[key].push(value)],
    where the assignment creates a property. *)
Definition collect (result : Props (list Val)) (key : string) (value : Val)
  : Props (list Val) :=
  let result := if negb (has key result) then set key [] result else result in
  push key value result.

(** The same for a key given at run time. *)
Definition collect_at (result : Props (list Val)) (key : string) (value : Val)
  : Result (Props (list Val)) :=
  if String.eqb key "__proto__"
  then Err (OutsideModel "an assignment to __proto__")
  else Ok (collect result key value).

(** [_.each(pairs, (value, key) => ...)] collecting into [result]. *)
Definition collect_each (result : Props (list Val)) (pairs : Val)
  : Result (Props (list Val)) :=
  entries <- each_entries pairs ;;
  foldM (fun result kv => collect_at result (Key_toString (fst kv)) (snd kv))
        entries result.

Definition map (evts : EventList) (arg2 : option MultiFieldSpec)
  : Result (Props (list Val)) :=
  let multiFieldSpec := match arg2 with
                        | Some m => m
                        | None => MString "value"
                        end in
  events <- match evts with
            | ImmutableList l => Ok l
            | JSArray l => Ok l
            | NoList => Err UnknownEventList
            end ;;
  match multiFieldSpec with
  | MString fieldSpec =>
      foldM (fun result event =>
               value <- get event (FPString fieldSpec) ;;
               collect_at result fieldSpec value)
            events []
  | MArray l =>
      foldM (fun result fieldSpec =>
               foldM (fun result event =>
                        value <- get event (FPString fieldSpec) ;;
                        collect_at result fieldSpec value)
                     events result)
            l []
  | MFunction f =>
      foldM (fun result event => collect_each result (f event)) events []
  | MOther =>
      foldM (fun result event =>
               json <- data_toJSON (data_of event) ;;
               collect_each result json)
            events []
  end.



(** [begin()], [end()] and [value()] are other names of [timestamp()] and
    [get()]. *)
Definition begin (e : t) : Val := timestamp e.

Definition end_ (e : t) : Val := timestamp e.

Definition value (e : Any) (fieldSpec : FieldPath) : Result Val := get e fieldSpec.

(** [collapse]: [data] starts as the plain copy of the event's data or as
    an empty object; a named property on the plain copy of a List is left
    out. *)
Definition collapse (e : t) (fieldSpecList : list FieldPath) (name : string)
           (reducer : list Val -> Result Val) (append : bool) : Result t :=
  data <- (if append
           then c <- collection (data e) ;;
                match toJS c with
                | VObj o => Ok o
                | _ => Err (OutsideModel "a named property on an array")
                end
           else Ok []) ;;
  d <- mapM (fun fs => get (Point e) fs) fieldSpecList ;;
  r <- reducer d ;;
  data <- assign name r data ;;
  setData e (VObj data).

(** The second argument of [selector]. *)
Inductive Selection : Type :=
| SString (fieldName : string)
| SArray (fieldNames : list string)
| SOther.

Definition selector (event : Any) (fieldPath : Selection) : Result Any :=
  match fieldPath with
  | SString fieldName =>
      value <- get event (FPString fieldName) ;;
      data <- assign fieldName value [] ;;
      setData_of event (VObj data)
  | SArray fieldNames =>
      data <- foldM (fun data fieldName =>
                       value <- get event (FPString fieldName) ;;
                       assign fieldName value data)
                    fieldNames [] ;;
      setData_of event (VObj data)
  | SOther => Ok event
  end.

(** [toJSON()]: the time as a number and the data as a plain structure. *)
Definition toJSON (e : t) : Result Val :=
  time <- getTime (timestamp e) ;;
  data <- data_toJSON (data e) ;;
  Ok (VObj [("time", number_of_time time); ("data", data)]).

End Event.

(** ** The pipeline side of a processor *)

(** Modelled from the spec: the [Processor] base class and [isPipeline] are
    not in the sources.  The base supplies [hasObservers()] and [emit()],
    and the first constructor argument tells a fresh build on a pipeline
    from a duplication; the base declares no configuration of its own, so
    its [fieldSpec] property reads undefined. *)
Module Processor.
Record t : Type := mk {
  hasObservers : bool;
  fieldSpec : Val            (* what reading [this.fieldSpec] yields *)
}.

Definition new : t := mk false VUndefined.

Definition addObserver (p : t) : t := mk true (fieldSpec p).
End Processor.

(** [v.length] *)
Definition length_of (v : Val) : Result Val :=
  match v with
  | VUndefined | VNull => Err (TypeError "Cannot read property 'length'")
  | VStr s => Ok (VNum (inject_Z (Z.of_nat (String.length s))))
  | VArr l => Ok (VNum (inject_Z (Z.of_nat (List.length l))))
  | _ => Ok VUndefined
  end.

(** [v > 1] *)
Definition gt_one (v : Val) : bool :=
  match v with
  | VNum q => negb (Qle_bool q 1)
  | _ => false
  end.

(** Arithmetic on numbers; an operand that is no number gives NaN. *)
Definition arith (op : Q -> Q -> Q) (a b : Val) : Val :=
  match a, b with
  | VNum x, VNum y => VNum (Qred (op x y))
  | _, _ => VNaN
  end.

(** ** class Filler *)

Module Filler.

Inductive FieldSpec : Type :=
| FSUndefined
| FSNull
| FSString (s : string)
| FSArray (l : list string).

(** The options object; [None] is a property left undefined (or, for the
    limit, null). *)
Record Options : Type := mkOptions {
  fieldSpec : FieldSpec;
  method : option string;
  limit : option Z
}.

Record t : Type := mk {
  base : Processor.t;
  _fieldSpec : FieldSpec;
  _method : string;
  _limit : option Z;
  _previousEvent : option Event.Any;
  _keyCount : Props Z;
  _lastGoodLinear : option Val;
  _linearFillCache : list Event.Any
}.

Inductive CtorArg : Type :=
| FromFiller (other : t)
| FromPipeline
| FromOther.

Definition contains (l : list string) (s : string) : bool :=
  existsb (String.eqb s) l.

(** [if (_.isString(fs)) fs = [fs]; else if (_.isNull(fs)) fs = ["value"]] *)
Definition normalise (fs : FieldSpec) : FieldSpec :=
  match fs with
  | FSString s => FSArray [s]
  | FSNull => FSArray ["value"]
  | _ => fs
  end.

Definition new (super : Processor.t) (arg1 : CtorArg) (options : Options)
  : Result t :=
  '(fieldSpec', method', limit') <-
    match arg1 with
    | FromFiller other =>
        Ok (_fieldSpec other, _method other, _limit other)
    | FromPipeline =>
        Ok (fieldSpec options,
            match method options with Some m => m | None => "zero" end,
            limit options)
    | FromOther => Err UnknownArg
    end ;;
  if negb (contains ["zero"; "pad"; "linear"] method')
  then Err (UnknownMethod method')
  else
    let this := mk super (normalise fieldSpec') method' limit' None [] None [] in
    if String.eqb method' "linear"
    then len <- length_of (Processor.fieldSpec (base this)) ;;
         if gt_one len then Err LinearSingleColumn else Ok this
    else Ok this.


Definition with_keyCount (f : t) (kc : Props Z) : t :=
  mk (base f) (_fieldSpec f) (_method f) (_limit f) (_previousEvent f) kc
     (_lastGoodLinear f) (_linearFillCache f).

Definition with_previousEvent (f : t) (e : Event.Any) : t :=
  mk (base f) (_fieldSpec f) (_method f) (_limit f) (Some e) (_keyCount f)
     (_lastGoodLinear f) (_linearFillCache f).

(** [this._limit && this._keyCount[pathKey] >= this._limit] *)
Definition limit_hit (limit : option Z) (count : Z) : bool :=
  match limit with
  | Some n => (negb (n =? 0)%Z && (n <=? count)%Z)%bool
  | None => false
  end.

(** The count kept under a path key, 0 when none is.  None is kept under
    __proto__, the name of the prototype of [_keyCount]. *)
Definition count_of (kc : Props Z) (pathKey : string) : Z :=
  if String.eqb pathKey "__proto__" then 0%Z
  else match lookup pathKey kc with Some n => n | None => 0%Z end.

(** [this._keyCount[pathKey] = n]: a number assigned to __proto__ is not
    stored. *)
Definition store (pathKey : string) (n : Z) (kc : Props Z) : Props Z :=
  if String.eqb pathKey "__proto__" then kc else set pathKey n kc.

(** The limit test on the counter of a path; what is read under __proto__
    is the prototype, which compares false with every limit. *)
Definition limit_hit_at (limit : option Z) (kc : Props Z) (pathKey : string) : bool :=
  (negb (String.eqb pathKey "__proto__") && limit_hit limit (count_of kc pathKey))%bool.

(** One turn of the loop over the paths; the state is the counters and
    [newData]. *)
Definition padAndZero_step (f : t) (st : Props Z * Val) (path : FieldPath)
  : Result (Props Z * Val) :=
  let (keyCount, newData) := st in
  let fieldPath := fieldPathToArray path in
  let pathKey := String.concat ":" fieldPath in
  let keyCount := if negb (has pathKey keyCount) then store pathKey 0%Z keyCount
                  else keyCount in
  present <- hasIn newData fieldPath ;;
  if negb present then Ok (keyCount, newData)
  else
    val <- getIn newData fieldPath ;;
    if isMissing val then
      if limit_hit_at (_limit f) keyCount pathKey
      then Ok (keyCount, newData)
      else if String.eqb (_method f) "zero" then
        newData' <- setIn newData fieldPath (VNum 0) ;;
        Ok (store pathKey (count_of keyCount pathKey + 1)%Z keyCount, newData')
      else if String.eqb (_method f) "pad" then
        match _previousEvent f with
        | Some previousEvent =>
            prevVal <- getIn (Event.data_of previousEvent) fieldPath ;;
            if negb (isMissing prevVal) then
              newData' <- setIn newData fieldPath prevVal ;;
              Ok (store pathKey (count_of keyCount pathKey + 1)%Z keyCount, newData')
            else Ok (keyCount, newData)
        | None => Ok (keyCount, newData)
        end
      else Ok (keyCount, newData)
    else Ok (store pathKey 0%Z keyCount, newData).

Definition _padAndZero (f : t) (data : Val) (paths : list FieldPath)
  : Result (t * Val) :=
  '(keyCount, newData) <- foldM (padAndZero_step f) paths (_keyCount f, data) ;;
  Ok (with_keyCount f keyCount, newData).

(** [this._linearFill(event, paths)]: the class defines no method of that
    name (it keeps the state for one, [_lastGoodLinear] and
    [_linearFillCache]), so the call throws. *)
Definition _linearFill (f : t) (event : Event.Any) (paths : list FieldPath)
  : Result (t * list Event.Any) :=
  Err (TypeError "this._linearFill is not a function").

(** [!this._fieldSpec] *)
Definition falsy (fs : FieldSpec) : bool :=
  match fs with
  | FSUndefined | FSNull | FSString EmptyString => true
  | _ => false
  end.

(** What [for (const path of paths)] walks through: the elements of an
    array, the characters of a string. *)
Definition paths_of (fs : FieldSpec) : list FieldPath :=
  match fs with
  | FSArray l => List.map FPString l
  | FSString s => List.map (fun c => FPString (String c EmptyString))
                           (list_ascii_of_string s)
  | _ => []
  end.

(** [addEvent] returns the processor after the call together with the
    events handed to [emit], in order. *)
Definition addEvent (f : t) (event : Event.Any) : Result (t * list Event.Any) :=
  if Processor.hasObservers (base f) then
    let d := Event.data_of event in
    paths <- (if falsy (_fieldSpec f)
              then c <- collection d ;;
                   Ok (List.map FPArray (generatePaths (toJS c)))
              else Ok (paths_of (_fieldSpec f))) ;;
    if (String.eqb (_method f) "zero" || String.eqb (_method f) "pad")%bool then
      '(f', newData) <- _padAndZero f d paths ;;
      emit <- Event.setData_of event newData ;;
      Ok (with_previousEvent f' emit, [emit])
    else if String.eqb (_method f) "linear" then
      _linearFill f event paths
    else Ok (f, [])
  else Ok (f, []).

(** An observer is attached to the processor. *)
Definition addObserver (f : t) : t :=
  mk (Processor.addObserver (base f)) (_fieldSpec f) (_method f) (_limit f)
     (_previousEvent f) (_keyCount f) (_lastGoodLinear f) (_linearFillCache f).

(** The events of a stream pushed one after the other: for each call, the
    processor after it and what it emitted. *)
Fixpoint run (f : t) (events : list Event.Any)
  : Result (list (t * list Event.Any)) :=
  match events with
  | [] => Ok []
  | e :: events' =>
      '(f', out) <- addEvent f e ;;
      rest <- run f' events' ;;
      Ok ((f', out) :: rest)
  end.

End Filler.

(** * The vocabulary of the statements *)

Definition point (t : TimeValue) (entries : Entries) : Event.Any :=
  Event.Point (Event.mk [("time", VDate t); ("data", VMap entries)]).

Definition is_ok {A} (r : Result A) : bool :=
  match r with Ok _ => true | Err _ => false end.

Definition value_event (t : TimeValue) (v : Val) : Event.Any :=
  point t [("value", v)].

(** What a run looks like from outside: the counter of "value" after each
    call and the events the call emitted. *)
Definition observe (trace : list (Filler.t * list Event.Any))
  : list (Z * list Event.Any) :=
  List.map (fun step => (Filler.count_of (Filler._keyCount (fst step)) "value",
                         snd step)) trace.

(** What pad fill shows besides: the event recorded as previous. *)
Definition observe_previous (trace : list (Filler.t * list Event.Any))
  : list (option Event.Any * list Event.Any) :=
  List.map (fun step => (Filler._previousEvent (fst step), snd step)) trace.

Definition emitted (trace : list (Filler.t * list Event.Any))
  : list (list Event.Any) :=
  List.map snd trace.

(** What every constructor branch establishes: [_d] has a time and a
    data entry. *)
Definition invariant (e : Event.t) : Prop :=
  has "time" (Event._d e) = true /\ has "data" (Event._d e) = true.

(** The data sources [dataFromArg] accepts. *)
Definition acceptable (d : Val) : bool :=
  (isObject d || isNumber d || isString d)%bool.

Definition keyed (e : Event.Any) : Prop :=
  exists c k, Event.class_and_key e = Ok (c, k).

(** The key an event is grouped under. *)
Definition group_key (e : Event.Any) : string :=
  match Event.class_and_key e with
  | Ok (_, k) => k
  | Err _ => ""
  end.

Definition add_key (seen : list string) (k : string) : list string :=
  if existsb (String.eqb k) seen then seen else seen ++ [k].

(** The keys of a collection, each once, in the order they first appear. *)
Definition group_keys (events : list Event.Any) : list string :=
  fold_left add_key (List.map group_key events) [].

(** The events grouped under [k], in input order. *)
Definition members (k : string) (events : list Event.Any) : list Event.Any :=
  filter (fun e => String.eqb (group_key e) k) events.

Definition groups (events : list Event.Any) : Props (list Event.Any) :=
  List.map (fun k => (k, members k events)) (group_keys events).

(** No key is shared by events of two classes. *)
Definition homogeneous (events : list Event.Any) : Prop :=
  forall e1 e2 c1 c2 k,
    In e1 events -> In e2 events ->
    Event.class_and_key e1 = Ok (c1, k) ->
    Event.class_and_key e2 = Ok (c2, k) -> c1 = c2.

(** The data of the event is an Immutable.Map (its keys are distinct). *)
Definition mapping_payload (e : Event.Any) : Prop :=
  exists m, Event.data_of e = VMap m /\ NoDup (keys m).

(** The fields of the event are walked by name: its data are an
    Immutable.Map of distinct keys, none of them the name of a member of
    Object.prototype, and without a [length] that would have underscore
    walk the fields by index. *)
Definition named_payload (e : Event.Any) : Prop :=
  exists m, Event.data_of e = VMap m /\ NoDup (keys m) /\
            Forall (fun k => inherited k = false) (keys m) /\
            array_like m = None.

(** The value of field [f] in the last event of [evs] that carries it. *)
Fixpoint last_value (f : string) (evs : list Event.Any) : option Val :=
  match evs with
  | [] => None
  | e :: evs' =>
      match last_value f evs' with
      | Some v => Some v
      | None => match Event.data_of e with
                | VMap m => lookup f m
                | _ => None
                end
      end
  end.

(** The values of field [f] in the events of [evs] that carry it, in
    order; [None] when no event carries it. *)
Fixpoint field_values (f : string) (evs : list Event.Any) : option (list Val) :=
  match evs with
  | [] => None
  | e :: evs' =>
      let rest := field_values f evs' in
      match match Event.data_of e with
            | VMap m => lookup f m
            | _ => None
            end with
      | Some v => Some (v :: match rest with Some vs => vs | None => [] end)
      | None => rest
      end
  end.

(** A reducer for the examples: the sum of a list of numbers. *)
Definition sum_values (values : list Val) : Val :=
  fold_left (arith Qplus) values (VNum 0).

Definition so_far {A : Type} (o : option (list A)) : list A :=
  match o with
  | Some l => l
  | None => []
  end.

(** A value that holds no Immutable collection, and one that holds no
    plain array or object. *)
Fixpoint plain (v : Val) : bool :=
  match v with
  | VList _ | VMap _ => false
  | VArr l => forallb plain l
  | VObj o => forallb (fun kv : string * Val => let (_, x) := kv in plain x) o
  | _ => true
  end.

Fixpoint immutable (v : Val) : bool :=
  match v with
  | VArr _ | VObj _ => false
  | VList l => forallb immutable l
  | VMap m => forallb (fun kv : string * Val => let (_, x) := kv in immutable x) m
  | _ => true
  end.

(** Induction on values, through the elements of arrays and Lists and the
    values of objects and Maps. *)
Section ValInduction.
Variable P : Val -> Prop.
Hypothesis Hundefined : P VUndefined.
Hypothesis Hnull : P VNull.
Hypothesis Hbool : forall b, P (VBool b).
Hypothesis Hnum : forall q, P (VNum q).
Hypothesis Hnan : P VNaN.
Hypothesis Hstr : forall s, P (VStr s).
Hypothesis Hdate : forall t, P (VDate t).
Hypothesis Harr : forall l, Forall P l -> P (VArr l).
Hypothesis Hobj : forall o, Forall (fun kv => P (snd kv)) o -> P (VObj o).
Hypothesis Hlist : forall l, Forall P l -> P (VList l).
Hypothesis Hmap : forall m, Forall (fun kv => P (snd kv)) m -> P (VMap m).

Fixpoint Val_nested_ind (v : Val) : P v :=
  let items :=
    fix items (l : list Val) : Forall P l :=
      match l with
      | [] => Forall_nil P
      | x :: l' => Forall_cons x (Val_nested_ind x) (items l')
      end in
  let props :=
    fix props (o : list (string * Val)) : Forall (fun kv => P (snd kv)) o :=
      match o with
      | [] => Forall_nil _
      | (k, x) :: o' =>
          Forall_cons (P := fun kv => P (snd kv)) (k, x) (Val_nested_ind x) (props o')
      end in
  match v with
  | VUndefined => Hundefined
  | VNull => Hnull
  | VBool b => Hbool b
  | VNum q => Hnum q
  | VNaN => Hnan
  | VStr s => Hstr s
  | VDate t => Hdate t
  | VArr l => Harr (items l)
  | VObj o => Hobj (props o)
  | VList l => Hlist (items l)
  | VMap m => Hmap (props m)
  end.
End ValInduction.

(** The time sources and the time/data map the constructor recognises. *)
Definition time_source (v : Val) : bool :=
  match v with
  | VNum _ | VNaN | VDate _ => true
  | _ => false
  end.

Definition time_data_map (v : Val) : bool :=
  match v with
  | VMap m => (has "time" m && has "data" m)%bool
  | _ => false
  end.

(** What [get] answers for the segments [path] on an event whose data are
    a collection. *)
Definition read (e : Event.Any) (path : list string) : Val :=
  match getIn_opt (Event.data_of e) path with
  | Some (VMap m) => toJS (VMap m)
  | Some (VList l) => toJS (VList l)
  | Some v => v
  | None => VUndefined
  end.

(** The data are an Immutable collection and, for a point event, [_d] has
    its time entry. *)
Definition well_formed (e : Event.Any) : Prop :=
  (exists c, collection (Event.data_of e) = Ok c) /\
  match e with
  | Event.Point p => invariant p
  | _ => True
  end.

(** A time value a Date can hold. *)
Definition valid_time (t : TimeValue) : bool :=
  match t with
  | Some z => (Z.abs z <=? maxTime)%Z
  | None => true
  end.

(** An event whose key gives back its identity: a point event with a time
    a Date can hold, or an indexed event.  (The key of a time range event
    is written and read back by [TimeRange], which is not among the
    sources.) *)
Definition valid_identity (e : Event.Any) : Prop :=
  match e with
  | Event.Point p => exists t, Event.timestamp p = VDate t /\ valid_time t = true
  | Event.Indexed _ => True
  | Event.Interval _ => False
  end.

(** The fields of the event are found under their names by [_.each]: its
    data are an Immutable.Map of distinct keys, none of them __proto__, and
    without a numeric [length]. *)
Definition walked_by_name (e : Event.Any) : Prop :=
  exists m, Event.data_of e = VMap m /\ NoDup (keys m) /\
            ~ In "__proto__" (keys m) /\ array_like m = None.


(** What zero fill with limit [n] emits for a run of events whose "value"
    is missing, the counter standing at [c]: a gap is filled while the
    counter is below the limit. *)
Fixpoint zero_run (n c : Z) (gaps : list (TimeValue * Val)) : list (list Event.Any) :=
  match gaps with
  | [] => []
  | (t, m) :: rest =>
      if (c <? n)%Z
      then [value_event t (VNum 0)] :: zero_run n (c + 1) rest
      else [value_event t m] :: zero_run n c rest
  end.

(** Every counter of the processor lies between 0 and [n]. *)
Definition bounded (n : Z) (f : Filler.t) : Prop :=
  forall k, (0 <= Filler.count_of (Filler._keyCount f) k <= n)%Z.

(** The events a call of [addEvent] emitted, or the error it threw. *)
Definition emitted_by (r : Result (Filler.t * list Event.Any))
  : Result (list Event.Any) :=
  match r with
  | Ok (_, out) => Ok out
  | Err e => Err e
  end.

(** The processor with another limit. *)
Definition with_limit (f : Filler.t) (limit : option Z) : Filler.t :=
  Filler.mk (Filler.base f) (Filler._fieldSpec f) (Filler._method f) limit
            (Filler._previousEvent f) (Filler._keyCount f)
            (Filler._lastGoodLinear f) (Filler._linearFillCache f).

(** Where the processor reads a value at a configured path of [d], it is
    not missing. *)
Definition no_gap (paths : list FieldPath) (d : Val) : Prop :=
  forall p v, In p paths -> getIn_opt d (fieldPathToArray p) = Some v ->
              isMissing v = false.

(** The names are listed in the order of enumeration: none is enumerated
    before one listed earlier. *)
Fixpoint in_order (ks : list string) : bool :=
  match ks with
  | [] => true
  | k :: ks' => (forallb (fun k' => negb (before k' k)) ks' && in_order ks')%bool
  end.

(** A value written the way the engine lists it and Immutable converts it:
    inside it every object and every Map has its names in the order of
    enumeration, none of them __proto__, and no [constructor] entry other
    than undefined.  On such a value [fromJS] and [toJS] undo each other. *)
Fixpoint canonical (v : Val) : bool :=
  match v with
  | VArr l | VList l => forallb canonical l
  | VObj o | VMap o =>
      (in_order (keys o) && isPlainObj o && negb (has "__proto__" o)
       && forallb (fun kv : string * Val => let (_, x) := kv in canonical x) o)%bool
  | _ => true
  end.

(** A name under which an assignment creates a field of the data: not
    __proto__, which names the prototype, and not constructor, by which
    [fromJS] tells a plain object. *)
Definition field_name (k : string) : bool :=
  (negb (String.eqb k "__proto__") && negb (String.eqb k "constructor"))%bool.

(** No date anywhere inside the value. *)
Fixpoint dateless (v : Val) : bool :=
  match v with
  | VDate _ => false
  | VArr l | VList l => forallb dateless l
  | VObj o | VMap o => forallb (fun kv : string * Val => let (_, x) := kv in dateless x) o
  | _ => true
  end.

(** * Properties *)

Unset Implicit Arguments.

(** ** The helpers on the examples of the sources *)

(** The two instants of the outage in the class comment of event.js. *)
Example toISOString_outage :
  Date_toISOString 1429673400000 = "2015-04-22T03:30:00.000Z" /\
  Date_toISOString 1429707600000 = "2015-04-22T13:00:00.000Z".
Proof. split; vm_compute; reflexivity. Qed.

Example fieldPath_deep :
  fieldPathToArray (FPString "deep.value") = ["deep"; "value"] /\
  fieldPathToArray FPOmitted = ["value"].
Proof. split; reflexivity. Qed.

(** [new Event(t, 25)] is shorthand for [new Event(t, {value: 25})]. *)
Example simple_data (t : Z) :
  Event.new (AVal (VNum (inject_Z t))) (VNum 25) =
  Event.new (AVal (VNum (inject_Z t))) (VObj [("value", VNum 25)]).
Proof. reflexivity. Qed.

(** ** The empty collection *)

(** C10.  On the empty collection [merge] and [combine] both return the
    empty list of events: neither fails, and no grouping or reduction takes
    place (the result of [combine] is there whatever the field spec and
    even for a reducer that would throw on every list). *)
Theorem merge_combine_empty :
  Event.merge [] = Ok [] /\
  forall fieldSpec reducer, Event.combine [] fieldSpec reducer = Ok [].
Proof.
  split; [reflexivity | intros fieldSpec reducer; reflexivity].
Qed.

(** ** [map] without a field spec *)

(** A point event as the constructor builds it from a millisecond number
    and a plain object. *)
Lemma new_point (ms : Z) (o : list (string * Val)) :
  (Z.abs ms <=? maxTime)%Z = true ->
  Event.new (AVal (VNum (inject_Z ms))) (VObj o) =
  Ok (Event.mk [("time", VDate (Some ms)); ("data", fromJS (VObj o))]).
Proof.
  intros Hms. unfold Event.new, timestampFromArg, timeclip, Ztrunc.
  cbn [inject_Z Qnum Qden]. rewrite Z.quot_1_r, Hms. reflexivity.
Qed.

(** With the second argument left out, [map] behaves as for the single
    field "value". *)
Lemma map_default (evts : Event.EventList) :
  Event.map evts None = Event.map evts (Some (Event.MString "value")).
Proof. reflexivity. Qed.

(** C5.  [map] called on one event with data {a: 1, b: 2} and no field spec
    returns {value: [undefined]}: the default parameter "value" stands in
    for the omitted argument, so the branch that walks every top-level key
    is not taken.  That branch is reached by a null field spec and would
    give {a: [1], b: [2]}. *)
Theorem map_omitted_reads_value :
  let events := Event.JSArray [point (Some 1000%Z) [("a", VNum 1); ("b", VNum 2)]] in
  Event.map events None = Ok [("value", [VUndefined])] /\
  Event.map events (Some Event.MOther) = Ok [("a", [VNum 1]); ("b", [VNum 2])].
Proof.
  split; reflexivity.
Qed.

(** ** Building a Filler *)

(** Whether a linear Filler can be built does not depend on the field spec
    it is configured with: the test reads [this.fieldSpec], not
    [this._fieldSpec]. *)
Lemma linear_ignores_fieldSpec (super : Processor.t) (fs fs' : Filler.FieldSpec)
      (limit limit' : option Z) :
  is_ok (Filler.new super Filler.FromPipeline
                    (Filler.mkOptions fs (Some "linear") limit)) =
  is_ok (Filler.new super Filler.FromPipeline
                    (Filler.mkOptions fs' (Some "linear") limit')).
Proof.
  unfold Filler.new. cbn.
  destruct (length_of (Processor.fieldSpec super)) as [len | e]; cbn;
    [destruct (gt_one len) |]; reflexivity.
Qed.

(** C6.  Building a Filler on a pipeline with method "linear" and a single
    path, "value" or any other, throws a TypeError: [this.fieldSpec] is
    undefined and its [length] cannot be read. *)
Theorem linear_single_path_throws (path : string) (limit : option Z) :
  Filler.new Processor.new Filler.FromPipeline
             (Filler.mkOptions (Filler.FSString path) (Some "linear") limit)
  = Err (TypeError "Cannot read property 'length'").
Proof. reflexivity. Qed.

(** The other two methods build, and an unknown one is refused. *)
Lemma new_zero_pad (super : Processor.t) (fs : Filler.FieldSpec) (m : string)
      (limit : option Z) :
  m = "zero" \/ m = "pad" ->
  Filler.new super Filler.FromPipeline (Filler.mkOptions fs (Some m) limit) =
  Ok (Filler.mk super (Filler.normalise fs) m limit None [] None []).
Proof. intros [-> | ->]; reflexivity. Qed.

Lemma new_unknown_method (super : Processor.t) (fs : Filler.FieldSpec) (m : string)
      (limit : option Z) :
  Filler.contains ["zero"; "pad"; "linear"] m = false ->
  Filler.new super Filler.FromPipeline (Filler.mkOptions fs (Some m) limit) =
  Err (UnknownMethod m).
Proof. intros H. unfold Filler.new. cbn -[Filler.contains]. rewrite H. reflexivity. Qed.

(** ** Zero and pad fill *)

Ltac missing_cases m H :=
  destruct m; try discriminate H; clear H.

(** C7.  Zero fill with limit 1 on the path "value": of four events whose
    value is missing, missing, 5, missing, each call emits one event, with
    value 0, missing (as it came), 5 and 0.  The counter goes 1, 1, 0, 1:
    the first gap is filled and counted, the second is left alone at the
    limit, the 5 resets the counter, the last gap is filled again. *)
Theorem zero_fill_limit_one (t1 t2 t3 t4 : TimeValue) (m1 m2 m4 : Val) :
  isMissing m1 = true -> isMissing m2 = true -> isMissing m4 = true ->
  exists f trace,
    Filler.new Processor.new Filler.FromPipeline
               (Filler.mkOptions (Filler.FSString "value") (Some "zero") (Some 1%Z))
    = Ok f /\
    Filler.run (Filler.addObserver f)
               [value_event t1 m1; value_event t2 m2;
                value_event t3 (VNum 5); value_event t4 m4] = Ok trace /\
    observe trace =
    [(1%Z, [value_event t1 (VNum 0)]);
     (1%Z, [value_event t2 m2]);
     (0%Z, [value_event t3 (VNum 5)]);
     (1%Z, [value_event t4 (VNum 0)])].
Proof.
  intros H1 H2 H4.
  missing_cases m1 H1; missing_cases m2 H2; missing_cases m4 H4;
    eexists; eexists;
    (split; [vm_compute; reflexivity | split; vm_compute; reflexivity]).
Qed.

Lemma zero_fill_limit_one_witness :
  exists f trace,
    Filler.new Processor.new Filler.FromPipeline
               (Filler.mkOptions (Filler.FSString "value") (Some "zero") (Some 1%Z))
    = Ok f /\
    Filler.run (Filler.addObserver f)
               [value_event (Some 1%Z) VNull; value_event (Some 2%Z) VUndefined;
                value_event (Some 3%Z) (VNum 5); value_event (Some 4%Z) VNaN]
    = Ok trace /\
    observe trace =
    [(1%Z, [value_event (Some 1%Z) (VNum 0)]);
     (1%Z, [value_event (Some 2%Z) VUndefined]);
     (0%Z, [value_event (Some 3%Z) (VNum 5)]);
     (1%Z, [value_event (Some 4%Z) (VNum 0)])].
Proof.
  apply (zero_fill_limit_one (Some 1%Z) (Some 2%Z) (Some 3%Z) (Some 4%Z)
                             VNull VUndefined VNaN); reflexivity.
Defined.

(** C8.  Pad fill without a limit: of four events whose value is missing,
    3, missing, missing, each call emits one event, with value missing (no
    previous event to copy from), 3, 3 and 3.  The event recorded as
    previous after each call is the emitted, filled one, so the last gap
    copies the 3 that the third event was filled with. *)
Theorem pad_fill_no_limit (t1 t2 t3 t4 : TimeValue) (m1 m3 m4 : Val) :
  isMissing m1 = true -> isMissing m3 = true -> isMissing m4 = true ->
  exists f trace,
    Filler.new Processor.new Filler.FromPipeline
               (Filler.mkOptions (Filler.FSString "value") (Some "pad") None)
    = Ok f /\
    Filler._previousEvent f = None /\
    Filler.run (Filler.addObserver f)
               [value_event t1 m1; value_event t2 (VNum 3);
                value_event t3 m3; value_event t4 m4] = Ok trace /\
    observe_previous trace =
    [(Some (value_event t1 m1), [value_event t1 m1]);
     (Some (value_event t2 (VNum 3)), [value_event t2 (VNum 3)]);
     (Some (value_event t3 (VNum 3)), [value_event t3 (VNum 3)]);
     (Some (value_event t4 (VNum 3)), [value_event t4 (VNum 3)])].
Proof.
  intros H1 H3 H4.
  missing_cases m1 H1; missing_cases m3 H3; missing_cases m4 H4;
    eexists; eexists;
    (split; [vm_compute; reflexivity
            | split; [reflexivity | split; vm_compute; reflexivity]]).
Qed.

Lemma pad_fill_no_limit_witness :
  exists f trace,
    Filler.new Processor.new Filler.FromPipeline
               (Filler.mkOptions (Filler.FSString "value") (Some "pad") None)
    = Ok f /\
    Filler._previousEvent f = None /\
    Filler.run (Filler.addObserver f)
               [value_event (Some 1%Z) VNull; value_event (Some 2%Z) (VNum 3);
                value_event (Some 3%Z) VNaN; value_event (Some 4%Z) VUndefined]
    = Ok trace /\
    observe_previous trace =
    [(Some (value_event (Some 1%Z) VNull), [value_event (Some 1%Z) VNull]);
     (Some (value_event (Some 2%Z) (VNum 3)), [value_event (Some 2%Z) (VNum 3)]);
     (Some (value_event (Some 3%Z) (VNum 3)), [value_event (Some 3%Z) (VNum 3)]);
     (Some (value_event (Some 4%Z) (VNum 3)), [value_event (Some 4%Z) (VNum 3)])].
Proof.
  apply (pad_fill_no_limit (Some 1%Z) (Some 2%Z) (Some 3%Z) (Some 4%Z)
                           VNull VNaN VUndefined); reflexivity.
Defined.

(** ** Linear fill *)

(** C9.  Linear fill of the path "value" on the values 5, missing, missing,
    11 does not take place.  A processor with method linear and that path
    is not built: the constructor throws, whatever the limit.  And on a processor in any state with that
    method and path and an observer attached, [addEvent] throws at the
    event handed to it, whatever its value: it calls [_linearFill], which
    the class does not define.  No event is emitted and none is queued. *)
Theorem linear_fill_throws :
  (forall limit,
      Filler.new Processor.new Filler.FromPipeline
                 (Filler.mkOptions (Filler.FSString "value") (Some "linear") limit)
      = Err (TypeError "Cannot read property 'length'")) /\
  (forall base limit previous counts good cache t v,
      Filler.addEvent
        (Filler.mk (Processor.addObserver base) (Filler.FSArray ["value"]) "linear"
                   limit previous counts good cache)
        (value_event t v)
      = Err (TypeError "this._linearFill is not a function")).
Proof.
  split.
  - intros limit. reflexivity.
  - intros base limit previous counts good cache t v. reflexivity.
Qed.

(** ** Records keyed by strings *)

Section PropsFacts.
Context {V : Type}.
Implicit Types (o : Props V) (k : string) (v : V).

Lemma lookup_set_same k v o : lookup k (set k v o) = Some v.
Proof.
  induction o as [| [k' v'] o IH]; cbn.
  - now rewrite String.eqb_refl.
  - destruct (String.eqb k k') eqn:E; cbn; rewrite E; auto.
Qed.

Lemma lookup_set_other k k' v o :
  k <> k' -> lookup k' (set k v o) = lookup k' o.
Proof.
  intros Hne. induction o as [| [k0 v0] o IH]; cbn.
  - destruct (String.eqb k' k) eqn:E; auto.
    apply String.eqb_eq in E. congruence.
  - destruct (String.eqb k k0) eqn:E; cbn.
    + apply String.eqb_eq in E. subst k0.
      destruct (String.eqb k' k) eqn:E'; auto.
      apply String.eqb_eq in E'. congruence.
    + now rewrite IH.
Qed.

Lemma lookup_set k k' v o :
  lookup k' (set k v o) = if String.eqb k k' then Some v else lookup k' o.
Proof.
  destruct (String.eqb k k') eqn:E.
  - apply String.eqb_eq in E. subst. apply lookup_set_same.
  - apply String.eqb_neq in E. now apply lookup_set_other.
Qed.

Lemma has_set_same k v o : has k (set k v o) = true.
Proof. unfold has. now rewrite lookup_set_same. Qed.

Lemma has_set_other k k' v o : k <> k' -> has k' (set k v o) = has k' o.
Proof. intros H. unfold has. now rewrite lookup_set_other. Qed.
End PropsFacts.

Lemma foldM_app {A S} (f : S -> A -> Result S) (l1 l2 : list A) (s : S) :
  foldM f (l1 ++ l2) s = (s' <- foldM f l1 s ;; foldM f l2 s').
Proof.
  revert s. induction l1 as [| a l1 IH]; intros s; cbn; [reflexivity |].
  destruct (f s a); cbn; auto.
Qed.

(** ** Replacing the data of an event *)

Lemma new_invariant (arg1 : Arg Event.t) (arg2 : Val) (e : Event.t) :
  (forall other, arg1 = AEvent other -> invariant other) ->
  Event.new arg1 arg2 = Ok e -> invariant e.
Proof.
  intros Hother H. unfold Event.new in H.
  assert (Hparts : forall r,
             (time <- timestampFromArg arg1 ;;
              data <- dataFromArg arg2 ;;
              Ok (Event.mk [("time", time); ("data", data)])) = Ok r ->
             invariant r).
  { intros r Hr. destruct (timestampFromArg arg1); [| discriminate].
    cbn in Hr. destruct (dataFromArg arg2); [| discriminate].
    cbn in Hr. injection Hr as <-. split; reflexivity. }
  destruct arg1 as [other | t | v].
  - injection H as <-. destruct (Hother other eq_refl). split; assumption.
  - now apply Hparts.
  - destruct v; try (now apply Hparts).
    destruct (has "time" entries && has "data" entries)%bool eqn:E.
    + injection H as <-. apply andb_true_iff in E. exact E.
    + now apply Hparts.
Qed.

Lemma dataFromArg_acceptable (d : Val) :
  dataFromArg d = if acceptable d
                  then Ok (if isObject d then fromJS d else VMap [("value", d)])
                  else Err DataError.
Proof.
  unfold dataFromArg, acceptable. destruct (isObject d); cbn; [reflexivity |].
  destruct (isNumber d || isString d)%bool; reflexivity.
Qed.

(** C1, as the code has it.  For an event [e] and a data source [d] that is
    an object, a number or a string, [setData] returns an event with the
    timestamp of [e] and with the converted [d] as data; for any other [d]
    it throws and returns no event.  Events are values here, so [e] itself
    is the same before and after the call. *)
Theorem setData_keeps_identity (e : Event.t) (d : Val) :
  invariant e ->
  if acceptable d
  then exists e', Event.setData e d = Ok e' /\
                  Event.timestamp e' = Event.timestamp e /\
                  Ok (Event.data e') = dataFromArg d /\
                  invariant e'
  else Event.setData e d = Err DataError.
Proof.
  intros [Htime Hdata]. unfold Event.setData.
  rewrite dataFromArg_acceptable. destruct (acceptable d); [| reflexivity].
  set (x := if isObject d then fromJS d else VMap [("value", d)]).
  cbn [bind]. unfold Event.new.
  assert (Htime' : has "time" (set "data" x (Event._d e)) = true)
    by (rewrite has_set_other; [assumption | discriminate]).
  rewrite Htime', has_set_same. cbn [andb].
  eexists. split; [reflexivity |]. repeat split.
  - unfold Event.timestamp, Map_get. cbn [Event._d].
    rewrite lookup_set_other; [reflexivity | discriminate].
  - unfold Event.data, Map_get. cbn [Event._d].
    now rewrite lookup_set_same.
  - assumption.
  - apply has_set_same.
Qed.

Lemma setData_keeps_identity_witness :
  let e := Event.mk [("time", VDate (Some 1000%Z)); ("data", VMap [("a", VNum 1)])] in
  exists e', Event.setData e (VObj [("b", VArr [VNum 2])]) = Ok e' /\
             Event.timestamp e' = Event.timestamp e /\
             Ok (Event.data e') = dataFromArg (VObj [("b", VArr [VNum 2])]) /\
             invariant e'.
Proof.
  exact (setData_keeps_identity
           (Event.mk [("time", VDate (Some 1000%Z)); ("data", VMap [("a", VNum 1)])])
           (VObj [("b", VArr [VNum 2])])
           (conj eq_refl eq_refl)).
Defined.

(** C1, as stated, fails on a boolean: [setData(true)] throws instead of
    returning an event. *)
Lemma setData_boolean_throws :
  let e := Event.mk [("time", VDate (Some 1000%Z)); ("data", VMap [("a", VNum 1)])] in
  invariant e /\ ~ exists e', Event.setData e (VBool true) = Ok e'.
Proof.
  split; [split; reflexivity |].
  intros [e' H]. discriminate H.
Qed.

(** ** Groups of mixed classes *)

Lemma Class_eqb_eq (a b : Event.Class) : Event.Class_eqb a b = true <-> a = b.
Proof. destruct a, b; cbn; split; intros H; try reflexivity; discriminate H. Qed.



(** The class recorded for a key stays, and the key of every event gone
    through is recorded with the class of that event. *)
Lemma group_step_typeMap (eventMap eventMap' : Props (list Event.Any))
      (typeMap typeMap' : Props Event.Class) (e : Event.Any) :
  Event.group_step (eventMap, typeMap) e = Ok (eventMap', typeMap') ->
  (forall k c, lookup k typeMap = Some c -> lookup k typeMap' = Some c) /\
  (forall c k, Event.class_and_key e = Ok (c, k) -> lookup k typeMap' = Some c).
Proof.
  intros H. unfold Event.group_step in H.
  destruct (Event.class_and_key e) as [[c k] |]; [| discriminate].
  cbn [bind] in H. destruct (lookup k typeMap) as [c' |] eqn:L.
  - destruct (Event.Class_eqb c' c) eqn:E; [| discriminate]. cbn in H.
    injection H as _ <-. apply Class_eqb_eq in E. subst c'. split.
    + auto.
    + intros c0 k0 [= <- <-]. assumption.
  - injection H as _ <-. split.
    + intros k0 c0 L0. rewrite lookup_set_other; [assumption |].
      intros ->. congruence.
    + intros c0 k0 [= <- <-]. apply lookup_set_same.
Qed.

Lemma grouping_typeMap (events : list Event.Any) (maps maps' : Event.Groups) :
  foldM Event.group_step events maps = Ok maps' ->
  (forall k c, lookup k (snd maps) = Some c -> lookup k (snd maps') = Some c) /\
  (forall e c k, In e events -> Event.class_and_key e = Ok (c, k) ->
                 lookup k (snd maps') = Some c).
Proof.
  revert maps. induction events as [| e events IH]; intros maps H; cbn in H.
  - injection H as <-. split; [auto | intros e c k []].
  - destruct (Event.group_step maps e) as [maps1 |] eqn:E; [| discriminate].
    cbn [bind] in H. destruct maps as [em tm], maps1 as [em1 tm1].
    destruct (group_step_typeMap _ _ _ _ _ E) as [Hkeep Hnew].
    destruct (IH _ H) as [Hkeep' Hnew']. cbn [snd] in *. split.
    + auto.
    + intros e0 c k [<- | Hin] Hk; eauto.
Qed.




(** ** The groups of a collection *)

Lemma existsb_eqb_In (k : string) (l : list string) :
  existsb (String.eqb k) l = true <-> In k l.
Proof.
  rewrite existsb_exists. split.
  - intros (x & Hin & E). apply String.eqb_eq in E. now subst.
  - intros Hin. exists k. split; [assumption | apply String.eqb_refl].
Qed.

Lemma existsb_eqb_notIn (k : string) (l : list string) :
  existsb (String.eqb k) l = false <-> ~ In k l.
Proof.
  rewrite <- existsb_eqb_In. destruct (existsb (String.eqb k) l); split; intros H;
    try reflexivity; try discriminate; try (intros H'; discriminate H').
  now elim H.
Qed.

Lemma group_keys_snoc (l : list Event.Any) (e : Event.Any) :
  group_keys (l ++ [e]) = add_key (group_keys l) (group_key e).
Proof. unfold group_keys. now rewrite map_app, fold_left_app. Qed.

Lemma add_key_In (seen : list string) (k k' : string) :
  In k' (add_key seen k) <-> In k' seen \/ k' = k.
Proof.
  unfold add_key. destruct (existsb (String.eqb k) seen) eqn:E.
  - apply existsb_eqb_In in E. split; [auto | intros [H | ->]; assumption].
  - rewrite in_app_iff. cbn. intuition congruence.
Qed.

Lemma group_keys_In (l : list Event.Any) (k : string) :
  In k (group_keys l) <-> In k (List.map group_key l).
Proof.
  induction l as [| e l IH] using rev_ind; [reflexivity |].
  rewrite group_keys_snoc, add_key_In, map_app, in_app_iff, IH. cbn.
  intuition congruence.
Qed.

Lemma group_keys_NoDup (l : list Event.Any) : NoDup (group_keys l).
Proof.
  induction l as [| e l IH] using rev_ind; [constructor |].
  rewrite group_keys_snoc. unfold add_key.
  destruct (existsb (String.eqb (group_key e)) (group_keys l)) eqn:E; [assumption |].
  apply existsb_eqb_notIn in E.
  apply NoDup_app; [assumption | repeat constructor; intros [] |].
  intros x Hx [<- | []]. contradiction.
Qed.

Lemma members_snoc (k : string) (l : list Event.Any) (e : Event.Any) :
  members k (l ++ [e]) =
  members k l ++ (if String.eqb (group_key e) k then [e] else []).
Proof. unfold members. rewrite filter_app. reflexivity. Qed.

Lemma members_none (k : string) (l : list Event.Any) :
  ~ In k (List.map group_key l) -> members k l = [].
Proof.
  induction l as [| e l IH]; intros Hnot; [reflexivity |]. cbn in *.
  destruct (String.eqb (group_key e) k) eqn:E.
  - apply String.eqb_eq in E. elim Hnot. now left.
  - apply IH. intros H. apply Hnot. now right.
Qed.

Lemma members_In (k : string) (l : list Event.Any) (e : Event.Any) :
  In e (members k l) <-> In e l /\ group_key e = k.
Proof. unfold members. rewrite filter_In, String.eqb_eq. reflexivity. Qed.

Section KeyedLists.
Context {V : Type}.
Implicit Types (o : Props V) (k : string).

Lemma lookup_keys_None k o : lookup k o = None <-> ~ In k (keys o).
Proof.
  induction o as [| [k' v'] o IH]; cbn.
  - split; [intros _ [] | reflexivity].
  - destruct (String.eqb k k') eqn:E.
    + apply String.eqb_eq in E. subst. split; [discriminate | intros H; elim H; now left].
    + apply String.eqb_neq in E. rewrite IH. intuition congruence.
Qed.

Lemma set_absent k (v : V) o : lookup k o = None -> set k v o = o ++ [(k, v)].
Proof.
  induction o as [| [k' v'] o IH]; cbn; [reflexivity |].
  destruct (String.eqb k k'); [discriminate |]. intros H. now rewrite IH.
Qed.

Lemma lookup_tabulate k (g : string -> V) (ks : list string) :
  lookup k (List.map (fun k' => (k', g k')) ks) =
  if existsb (String.eqb k) ks then Some (g k) else None.
Proof.
  induction ks as [| k0 ks IH]; cbn; [reflexivity |].
  destruct (String.eqb k k0) eqn:E; cbn; [| assumption].
  apply String.eqb_eq in E. now subst.
Qed.

Lemma keys_set k (v : V) o :
  keys (set k v o) = if has k o then keys o else keys o ++ [k].
Proof.
  unfold has, keys. induction o as [| [k' v'] o IH]; cbn; [reflexivity |].
  destruct (String.eqb k k'); cbn; [reflexivity |]. rewrite IH.
  destruct (lookup k o); reflexivity.
Qed.
End KeyedLists.

Section Push.
Context {A : Type}.
Implicit Types (o : Props (list A)) (k : string) (x : A).

Lemma keys_push k x o : keys (push k x o) = keys o.
Proof.
  unfold keys. induction o as [| [k' l] o IH]; cbn; [reflexivity |].
  destruct (String.eqb k k'); cbn; [reflexivity | now rewrite IH].
Qed.

Lemma lookup_push k k' x o :
  lookup k' (push k x o) =
  if String.eqb k k' then option_map (fun l => l ++ [x]) (lookup k o)
  else lookup k' o.
Proof.
  induction o as [| [k0 l] o IH]; cbn.
  - destruct (String.eqb k k'); reflexivity.
  - destruct (String.eqb k k0) eqn:E0; cbn.
    + apply String.eqb_eq in E0. subst k0.
      destruct (String.eqb k k') eqn:E.
      * apply String.eqb_eq in E. subst k'. now rewrite String.eqb_refl.
      * rewrite String.eqb_sym, E. reflexivity.
    + rewrite IH. destruct (String.eqb k' k0) eqn:E1; [| reflexivity].
      apply String.eqb_eq in E1. subst k0.
      rewrite E0. reflexivity.
Qed.

Lemma push_absent_last k x o (l : list A) :
  lookup k o = None -> push k x (o ++ [(k, l)]) = o ++ [(k, l ++ [x])].
Proof.
  induction o as [| [k' l'] o IH]; cbn.
  - now rewrite String.eqb_refl.
  - destruct (String.eqb k k'); [discriminate |]. intros H. now rewrite IH.
Qed.

Lemma push_tabulate k x (g : string -> list A) (ks : list string) :
  NoDup ks ->
  push k x (List.map (fun k' => (k', g k')) ks) =
  List.map (fun k' => (k', g k' ++ (if String.eqb k k' then [x] else []))) ks.
Proof.
  induction 1 as [| k0 ks Hnot Hnd IH]; cbn; [reflexivity |].
  destruct (String.eqb k k0) eqn:E.
  - apply String.eqb_eq in E. subst k0. f_equal.
    apply map_ext_in. intros k' Hin.
    destruct (String.eqb k k') eqn:E'.
    + apply String.eqb_eq in E'. subst. contradiction.
    + now rewrite app_nil_r.
  - rewrite app_nil_r. now rewrite IH.
Qed.
End Push.

(** One more event extends the groups the way the loop body does. *)
Lemma groups_snoc (l : list Event.Any) (e : Event.Any) :
  groups (l ++ [e]) =
  push (group_key e) e
       (if negb (has (group_key e) (groups l))
        then set (group_key e) [] (groups l) else groups l).
Proof.
  set (k := group_key e). unfold groups, has.
  rewrite group_keys_snoc, lookup_tabulate. fold k. unfold add_key.
  destruct (existsb (String.eqb k) (group_keys l)) eqn:E; cbn [negb].
  - rewrite push_tabulate by apply group_keys_NoDup.
    apply map_ext. intros k'. rewrite members_snoc. fold k. reflexivity.
  - rewrite set_absent by (rewrite lookup_tabulate, E; reflexivity).
    apply existsb_eqb_notIn in E.
    rewrite push_absent_last
      by (apply lookup_keys_None; unfold keys; rewrite map_map, map_id; exact E).
    rewrite map_app. cbn [List.map]. f_equal.
    + apply map_ext_in. intros k' Hin. rewrite members_snoc. fold k.
      destruct (String.eqb k k') eqn:E'.
      * apply String.eqb_eq in E'. subst k'. contradiction.
      * now rewrite app_nil_r.
    + rewrite members_snoc. fold k. rewrite String.eqb_refl.
      rewrite members_none; [reflexivity |].
      now rewrite <- group_keys_In.
Qed.

Lemma group_step_eventMap (eventMap eventMap' : Props (list Event.Any))
      (typeMap typeMap' : Props Event.Class) (e : Event.Any) :
  Event.group_step (eventMap, typeMap) e = Ok (eventMap', typeMap') ->
  eventMap' = push (group_key e) e
                   (if negb (has (group_key e) eventMap)
                    then set (group_key e) [] eventMap else eventMap).
Proof.
  unfold Event.group_step, group_key.
  destruct (Event.class_and_key e) as [[c k] |]; [| discriminate]. cbn [bind].
  destruct (lookup k typeMap) as [c' |].
  - destruct (negb (Event.Class_eqb c' c)); [discriminate |]. now intros [= <- _].
  - now intros [= <- _].
Qed.

(** The first loop leaves the groups in [eventMap]. *)
Lemma grouping_eventMap (events : list Event.Any) (maps : Event.Groups) :
  foldM Event.group_step events ([], []) = Ok maps -> fst maps = groups events.
Proof.
  revert maps. induction events as [| e l IH] using rev_ind; intros maps H.
  - injection H as <-. reflexivity.
  - rewrite foldM_app in H.
    destruct (foldM Event.group_step l ([], [])) as [[em tm] |]; [| discriminate].
    cbn [foldM bind] in H.
    destruct (Event.group_step (em, tm) e) as [[em' tm'] |] eqn:E; [| discriminate].
    cbn [bind] in H. injection H as <-. cbn [fst]. specialize (IH _ eq_refl). cbn [fst] in IH.
    rewrite groups_snoc, <- IH. eapply group_step_eventMap; eauto.
Qed.

(** On a homogeneous collection of keyed events the first loop ends. *)
Lemma grouping_ends (events : list Event.Any) (maps : Event.Groups) :
  Forall keyed events -> homogeneous events ->
  (forall e c k c', In e events -> Event.class_and_key e = Ok (c, k) ->
                    lookup k (snd maps) = Some c' -> c' = c) ->
  exists maps', foldM Event.group_step events maps = Ok maps'.
Proof.
  intros Hall. revert maps.
  induction Hall as [| e l (c & k & Hk) _ IH]; intros [em tm] Hhom Hagree; cbn.
  - eauto.
  - cbn [snd] in Hagree. unfold Event.group_step at 1. rewrite Hk. cbn [bind].
    assert (Hhom' : homogeneous l).
    { intros e1 e2 c1 c2 k0 H1 H2. apply Hhom; now right. }
    destruct (lookup k tm) as [c' |] eqn:L.
    + rewrite (Hagree e c k c' (or_introl eq_refl) Hk L).
      replace (Event.Class_eqb c c) with true by (destruct c; reflexivity).
      cbn. apply IH; [assumption |].
      intros e0 c0 k0 c0' Hin. apply (Hagree e0). now right.
    + cbn. apply IH; [assumption |]. cbn [snd].
      intros e0 c0 k0 c0' Hin Hk0. rewrite lookup_set. 
      destruct (String.eqb k k0) eqn:E.
      * apply String.eqb_eq in E. subst k0. intros [= <-].
        apply (Hhom e e0 c c0 k); [now left | now right | assumption | assumption].
      * apply (Hagree e0); [now right | assumption].
Qed.

(** ** The order of enumeration *)

Section Enumeration.
Context {V : Type}.
Implicit Types (o : Props V) (kv : string * V) (k : string).

Lemma place_perm kv o : Permutation (place kv o) (kv :: o).
Proof.
  induction o as [| kv' o IH]; cbn; [reflexivity |].
  destruct (before (fst kv) (fst kv')); [reflexivity |].
  rewrite IH. apply perm_swap.
Qed.

Lemma own_entries_snoc o kv : own_entries (o ++ [kv]) = place kv (own_entries o).
Proof. unfold own_entries. now rewrite fold_left_app. Qed.

Lemma own_entries_perm o : Permutation (own_entries o) o.
Proof.
  induction o as [| kv o IH] using rev_ind; [reflexivity |].
  rewrite own_entries_snoc, place_perm, IH. apply Permutation_cons_append.
Qed.

Lemma own_entries_In o kv : In kv (own_entries o) <-> In kv o.
Proof.
  split; apply Permutation_in;
    [apply own_entries_perm | symmetry; apply own_entries_perm].
Qed.

Lemma keys_perm o o' : Permutation o o' -> Permutation (keys o) (keys o').
Proof. apply Permutation_map. Qed.

Lemma own_entries_NoDup o : NoDup (keys o) -> NoDup (keys (own_entries o)).
Proof.
  apply Permutation_NoDup. symmetry. apply keys_perm, own_entries_perm.
Qed.

Lemma lookup_In k (v : V) o : NoDup (keys o) -> lookup k o = Some v <-> In (k, v) o.
Proof.
  induction o as [| [k' v'] o IH]; cbn; intros Hnd.
  - split; [discriminate | intros []].
  - inversion Hnd as [| ? ? Hnot Hnd']; subst.
    destruct (String.eqb k k') eqn:E.
    + apply String.eqb_eq in E. subst k'. split.
      * intros [= ->]. now left.
      * intros [[= ->] | Hin]; [reflexivity |].
        elim Hnot. apply (in_map fst) in Hin. exact Hin.
    + apply String.eqb_neq in E. rewrite (IH Hnd'). split; [now right |].
      intros [[= -> _] | Hin]; [now elim E | assumption].
Qed.

Lemma lookup_perm k o o' :
  NoDup (keys o) -> Permutation o o' -> lookup k o' = lookup k o.
Proof.
  intros Hnd Hperm.
  assert (Hnd' : NoDup (keys o'))
    by (apply (Permutation_NoDup (keys_perm _ _ Hperm) Hnd)).
  destruct (lookup k o) as [v |] eqn:L.
  - apply (lookup_In k v o' Hnd'). apply (Permutation_in _ Hperm).
    now apply (lookup_In k v o Hnd).
  - destruct (lookup k o') as [v' |] eqn:L'; [| reflexivity].
    apply (lookup_In k v' o' Hnd') in L'.
    apply (Permutation_in _ (Permutation_sym Hperm)) in L'.
    apply (lookup_In k v' o Hnd) in L'. congruence.
Qed.

Lemma lookup_own_entries k o :
  NoDup (keys o) -> lookup k (own_entries o) = lookup k o.
Proof.
  intros Hnd. apply lookup_perm; [assumption |]. symmetry. apply own_entries_perm.
Qed.

(** A list that is in the order of enumeration already. *)
Lemma place_last kv o :
  forallb (fun kv' => negb (before (fst kv) (fst kv'))) o = true ->
  place kv o = o ++ [kv].
Proof.
  induction o as [| kv' o IH]; cbn; [reflexivity |].
  intros H. apply andb_true_iff in H. destruct H as [Hb Ho].
  apply negb_true_iff in Hb. now rewrite Hb, IH.
Qed.

Lemma in_order_snoc (ks : list string) k :
  in_order (ks ++ [k]) =
  (in_order ks && forallb (fun k' => negb (before k k')) ks)%bool.
Proof.
  induction ks as [| k0 ks IH]; cbn; [reflexivity |].
  rewrite forallb_app, IH. cbn.
  destruct (forallb (fun k' => negb (before k' k0)) ks), (in_order ks),
    (before k k0), (forallb (fun k' => negb (before k k')) ks); reflexivity.
Qed.

Lemma forallb_keys (p : string -> bool) o :
  forallb p (keys o) = forallb (fun kv => p (fst kv)) o.
Proof.
  unfold keys. induction o as [| kv o IH]; cbn; [reflexivity | now rewrite IH].
Qed.

Lemma own_entries_in_order o : in_order (keys o) = true -> own_entries o = o.
Proof.
  induction o as [| kv o IH] using rev_ind; [reflexivity |].
  unfold keys. rewrite map_app. cbn [List.map]. rewrite in_order_snoc.
  intros H. apply andb_true_iff in H. destruct H as [Ho Hkv].
  rewrite own_entries_snoc, (IH Ho). apply place_last.
  fold (keys o) in Hkv. rewrite forallb_keys in Hkv. exact Hkv.
Qed.

Lemma before_irrefl k : before k k = false.
Proof.
  unfold before. destruct (array_index k); [apply Nat.ltb_irrefl | reflexivity].
Qed.

(** [before] is the strict part of a total preorder. *)
Lemma before_trans_neg k k' x :
  before k k' = true -> before x k' = false -> before x k = false.
Proof.
  unfold before.
  destruct (array_index k) as [i |], (array_index k') as [j |],
    (array_index x) as [n |]; try discriminate; try reflexivity.
  rewrite !Nat.ltb_lt, !Nat.ltb_ge. lia.
Qed.

Lemma keys_place kv o :
  forall k, In k (keys (place kv o)) <-> k = fst kv \/ In k (keys o).
Proof.
  intros k. unfold keys.
  split; intros H.
  - apply (Permutation_in _ (Permutation_map fst (place_perm kv o))) in H.
    destruct H as [<- | H]; [now left | now right].
  - apply (Permutation_in _ (Permutation_sym (Permutation_map fst (place_perm kv o)))).
    destruct H as [-> | H]; [now left | now right].
Qed.

Lemma place_in_order kv o :
  in_order (keys o) = true -> in_order (keys (place kv o)) = true.
Proof.
  induction o as [| kv' o IH]; [reflexivity |].
  cbn [keys List.map in_order]. fold (keys o).
  intros H. apply andb_true_iff in H. destruct H as [Hhead Ho].
  cbn [place]. destruct (before (fst kv) (fst kv')) eqn:E.
  - cbn [keys List.map in_order forallb]. fold (keys o).
    rewrite (before_trans_neg _ _ _ E (before_irrefl (fst kv'))), Hhead, Ho.
    cbn [negb andb]. rewrite andb_true_r.
    apply forallb_forall. intros x Hx. rewrite forallb_forall in Hhead.
    apply negb_true_iff. apply (before_trans_neg _ (fst kv')); [assumption |].
    apply negb_true_iff. now apply Hhead.
  - cbn [keys List.map in_order]. fold (keys (place kv o)).
    rewrite (IH Ho), andb_true_r. apply forallb_forall. intros x Hx.
    apply keys_place in Hx. destruct Hx as [-> | Hx].
    + now rewrite E.
    + rewrite forallb_forall in Hhead. now apply Hhead.
Qed.

Lemma own_entries_ordered o : in_order (keys (own_entries o)) = true.
Proof.
  induction o as [| kv o IH] using rev_ind; [reflexivity |].
  rewrite own_entries_snoc. now apply place_in_order.
Qed.

Lemma lookup_place k kv o :
  in_order (keys o) = true ->
  lookup k (place kv o) =
  match lookup k o with
  | Some v => Some v
  | None => if String.eqb k (fst kv) then Some (snd kv) else None
  end.
Proof.
  destruct kv as [k0 v0]. cbn [fst snd].
  induction o as [| [k' v'] o IH]; [reflexivity |].
  cbn [keys List.map in_order fst]. fold (keys o).
  intros H. apply andb_true_iff in H. destruct H as [Hhead Ho].
  cbn [place fst]. destruct (before k0 k') eqn:E.
  - cbn [lookup]. destruct (String.eqb k k0) eqn:E0.
    + apply String.eqb_eq in E0. subst k0.
      destruct (String.eqb k k') eqn:E1.
      { apply String.eqb_eq in E1. subst k'. now rewrite before_irrefl in E. }
      destruct (lookup k o) eqn:L; [| reflexivity].
      assert (Hin : In k (keys o)).
      { destruct (existsb (String.eqb k) (keys o)) eqn:Ex.
        - now apply existsb_eqb_In.
        - apply existsb_eqb_notIn, lookup_keys_None in Ex. congruence. }
      rewrite forallb_forall in Hhead. specialize (Hhead k Hin).
      apply negb_true_iff in Hhead. congruence.
    + destruct (String.eqb k k'); [reflexivity |].
      destruct (lookup k o); reflexivity.
  - cbn [lookup]. destruct (String.eqb k k'); [reflexivity | now apply IH].
Qed.

Lemma lookup_app k o o' :
  lookup k (o ++ o') = match lookup k o with Some v => Some v | None => lookup k o' end.
Proof.
  induction o as [| [k' v'] o IH]; cbn; [reflexivity |].
  destruct (String.eqb k k'); [reflexivity | assumption].
Qed.

(** Enumeration changes no value, whether or not the names are distinct. *)
Lemma lookup_enumerated k o : lookup k (own_entries o) = lookup k o.
Proof.
  induction o as [| kv o IH] using rev_ind; [reflexivity |].
  rewrite own_entries_snoc, lookup_place by apply own_entries_ordered.
  rewrite IH, lookup_app. destruct kv as [k0 v0]. cbn.
  destruct (lookup k o); [reflexivity |]. destruct (String.eqb k k0); reflexivity.
Qed.

End Enumeration.

(** ** What [merge] puts in the output events *)

Lemma lookup_fold_set {A V : Type} (g : A -> V) (o : Props A) (acc : Props V)
      (f : string) :
  NoDup (keys o) ->
  lookup f (fold_left (fun acc kv => set (fst kv) (g (snd kv)) acc) o acc) =
  match lookup f o with
  | Some v => Some (g v)
  | None => lookup f acc
  end.
Proof.
  revert acc. induction o as [| [k v] o IH]; intros acc Hnd; [reflexivity |].
  cbn in Hnd. inversion Hnd as [| ? ? Hnot Hnd']; subst.
  cbn [fold_left fst snd lookup]. rewrite IH by assumption.
  destruct (String.eqb f k) eqn:E.
  - apply String.eqb_eq in E. subst k.
    apply lookup_keys_None in Hnot. rewrite Hnot. apply lookup_set_same.
  - destruct (lookup f o); [reflexivity |].
    apply lookup_set_other. intros ->. now rewrite String.eqb_refl in E.
Qed.

(** The inner loop of [merge] over the events of one group. *)
Lemma merge_payloads (evs : list Event.Any) (acc : Entries) :
  Forall mapping_payload evs ->
  exists acc',
    foldM (fun data event => Map_merge data (Event.data_of event)) evs acc = Ok acc' /\
    forall f, lookup f acc' = match last_value f evs with
                              | Some v => Some v
                              | None => lookup f acc
                              end.
Proof.
  intros Hall. revert acc.
  induction Hall as [| e evs (m & Hm & Hnd) _ IH]; intros acc; cbn [foldM last_value].
  - exists acc. split; reflexivity.
  - rewrite Hm. cbn [Map_merge bind].
    destruct (IH (fold_left (fun acc kv => set (fst kv) (snd kv) acc) m acc))
      as (acc' & -> & Hacc').
    exists acc'. split; [reflexivity |]. intros f. rewrite Hacc'.
    destruct (last_value f evs); [reflexivity |].
    exact (lookup_fold_set (fun x => x) m acc f Hnd).
Qed.

Lemma ToNumber_isNumber (s : string) : isNumber (ToNumber s) = true.
Proof.
  unfold ToNumber. destruct s; [reflexivity |].
  destruct (NilZero.int_of_string _); reflexivity.
Qed.

(** A key printed from a time value reads back as that time value. *)
Lemma ToNumber_string_of_time (t : TimeValue) :
  ToNumber (string_of_time t) = number_of_time t.
Proof.
  destruct t as [z |]; [| reflexivity].
  unfold string_of_time, string_of_Z, number_of_time, ToNumber.
  assert (H : NilZero.int_of_string (NilZero.string_of_int (Z.to_int z))
              = Some (Z.to_int z)).
  { apply NilZero.isi; destruct z; cbn; intros [= H]; try discriminate H;
      now apply Unsigned.to_uint_nonnil in H. }
  destruct (NilZero.string_of_int (Z.to_int z)); [discriminate H |].
  rewrite H, DecimalZ.of_to. reflexivity.
Qed.

Lemma timeclip_number_of_time (z : Z) :
  (Z.abs z <=? maxTime)%Z = true -> timeclip (number_of_time (Some z)) = Some z.
Proof.
  intros H. unfold timeclip, number_of_time, Ztrunc. cbn [inject_Z Qnum Qden].
  now rewrite Z.quot_1_r, H.
Qed.

(** An output event is built for every key that has a class, and holds
    the converted data. *)
Lemma build_data (typeMap : Props Event.Class) (key : string) (c : Event.Class)
      (d d' : Val) (outEvents : list Event.Any) :
  lookup key typeMap = Some c -> dataFromArg d = Ok d' ->
  exists o, Event.build typeMap key d outEvents = Ok (outEvents ++ [o]) /\
            Event.data_of o = d'.
Proof.
  intros L Hd. unfold Event.build. rewrite L. destruct c.
  - pose proof (ToNumber_isNumber key) as Hn.
    destruct (ToNumber key) eqn:E; try discriminate Hn;
      unfold Event.new, timestampFromArg; rewrite Hd; cbn [bind];
      eexists; (split; [reflexivity | reflexivity]).
  - unfold IndexedEvent.new. rewrite Hd. cbn [bind].
    eexists; split; reflexivity.
  - unfold TimeRangeEvent.new. rewrite Hd. cbn [bind].
    eexists; split; reflexivity.
Qed.

(** The second loop, when its body appends one event per group. *)
Lemma foldM_appends {G O : Type} (step : list O -> G -> Result (list O))
      (P : G -> O -> Prop) (gs : list G) :
  (forall outs g, In g gs -> exists o, step outs g = Ok (outs ++ [o]) /\ P g o) ->
  forall outs, exists outs',
    foldM step gs outs = Ok (outs ++ outs') /\ Forall2 P gs outs'.
Proof.
  induction gs as [| g gs IH]; intros Hstep outs; cbn [foldM].
  - exists []. rewrite app_nil_r. split; [reflexivity | constructor].
  - destruct (Hstep outs g (or_introl eq_refl)) as (o & -> & Ho). cbn [bind].
    destruct (IH (fun outs g' Hin => Hstep outs g' (or_intror Hin)) (outs ++ [o]))
      as (outs' & -> & Hall).
    exists (o :: outs'). rewrite <- app_assoc. split; [reflexivity |].
    now constructor.
Qed.

(** Every group has members, all taken from the collection, and a class. *)
Lemma groups_class (events : list Event.Any) (maps : Event.Groups)
      (k : string) (evs : list Event.Any) :
  Forall keyed events ->
  foldM Event.group_step events ([], []) = Ok maps ->
  In (k, evs) (groups events) ->
  evs = members k events /\ exists c, lookup k (snd maps) = Some c.
Proof.
  intros Hall Hfold Hin. unfold groups in Hin. apply in_map_iff in Hin.
  destruct Hin as (k' & [= -> <-] & Hk). split; [reflexivity |].
  apply group_keys_In, in_map_iff in Hk. destruct Hk as (e & Hkey & He).
  rewrite Forall_forall in Hall. destruct (Hall e He) as (c & k0 & Hck).
  exists c. destruct (grouping_typeMap _ _ _ Hfold) as [_ Hnew].
  apply (Hnew e); [assumption |].
  unfold group_key in Hkey. rewrite Hck in Hkey. now subst k0.
Qed.

Lemma members_payload (k : string) (events : list Event.Any) :
  Forall mapping_payload events -> Forall mapping_payload (members k events).
Proof.
  rewrite !Forall_forall. intros H e He. apply members_In in He. now apply H.
Qed.

Lemma homogeneous_agrees (events : list Event.Any) :
  forall e c k c', In e events -> Event.class_and_key e = Ok (c, k) ->
                   lookup k (@nil (string * Event.Class)) = Some c' -> c' = c.
Proof. intros e c k c' _ _ H. discriminate H. Qed.

Lemma has_groups (events : list Event.Any) (k : string) :
  has k (groups events) = existsb (String.eqb k) (group_keys events).
Proof.
  unfold has, groups. rewrite lookup_tabulate.
  destruct (existsb (String.eqb k) (group_keys events)); reflexivity.
Qed.

(** The second loop walks the groups in the order of enumeration. *)
Lemma each_group_groups (events : list Event.Any) :
  ~ In "__proto__" (group_keys events) ->
  Event.each_group (groups events) = Ok (own_entries (groups events)).
Proof.
  intros Hnot. unfold Event.each_group. rewrite has_groups.
  apply existsb_eqb_notIn in Hnot. now rewrite Hnot.
Qed.

(** C3, as the code has it.  On a homogeneous collection of events whose
    data are mappings, none of them grouped under the name __proto__,
    [merge] returns one event per group, in the order the engine enumerates
    the keys of the groups: the keys that are array indices first, in
    ascending order, then the others in the order they first appear.  Under
    every top-level field the data of that event hold the whole value of
    the last event of the group that carries the field: later events
    overwrite earlier ones field by field, and a nested mapping is
    replaced, not merged into. *)
Theorem merge_is_shallow (events : list Event.Any) :
  Forall keyed events -> homogeneous events -> Forall mapping_payload events ->
  ~ In "__proto__" (group_keys events) ->
  exists outs,
    Event.merge events = Ok outs /\
    Forall2 (fun g o => exists m, Event.data_of o = VMap m /\
                                  forall f, lookup f m = last_value f (snd g))
            (own_entries (groups events)) outs.
Proof.
  intros Hkeyed Hhom Hmaps Hproto. unfold Event.merge.
  destruct (List.length events =? 0)%nat eqn:Hlen.
  - destruct events; [| discriminate]. exists []. split; [reflexivity | constructor].
  - destruct (grouping_ends events ([], []) Hkeyed Hhom (homogeneous_agrees events))
      as ([eventMap typeMap] & Hfold).
    rewrite Hfold. cbn [bind].
    pose proof (grouping_eventMap _ _ Hfold) as Hem. cbn [fst] in Hem. subst eventMap.
    rewrite (each_group_groups events Hproto). cbn [bind].
    match goal with
    | |- exists outs, foldM ?step _ _ = _ /\ Forall2 ?P _ _ =>
        destruct (foldM_appends step P (own_entries (groups events)))
          with (outs := @nil Event.Any)
        as (outs & Houts & Hall)
    end.
    + intros outs [k evs] Hin. apply (proj1 (own_entries_In _ _)) in Hin.
      destruct (groups_class _ _ _ _ Hkeyed Hfold Hin) as [-> [c Hc]].
      cbn [snd] in Hc.
      destruct (merge_payloads (members k events) [] (members_payload k _ Hmaps))
        as (data & -> & Hdata).
      cbn [bind].
      destruct (build_data typeMap k c (VMap data) (VMap data) outs Hc eq_refl)
        as (o & -> & Ho).
      exists o. split; [reflexivity |]. exists data. split; [assumption |].
      intros f. rewrite Hdata. cbn [snd].
      destruct (last_value f (members k events)); reflexivity.
    + exists outs. split; assumption.
Qed.

Lemma merge_is_shallow_witness :
  exists outs,
    Event.merge [point (Some 2000%Z) [("a", VMap [("x", VNum 1)]); ("b", VNum 3)];
                 point (Some 1000%Z) [("c", VNum 4)];
                 point (Some 2000%Z) [("a", VMap [("y", VNum 2)])]] = Ok outs /\
    Forall2 (fun g o => exists m, Event.data_of o = VMap m /\
                                  forall f, lookup f m = last_value f (snd g))
            (own_entries
               (groups [point (Some 2000%Z) [("a", VMap [("x", VNum 1)]); ("b", VNum 3)];
                        point (Some 1000%Z) [("c", VNum 4)];
                        point (Some 2000%Z) [("a", VMap [("y", VNum 2)])]]))
            outs.
Proof.
  apply (merge_is_shallow
           [point (Some 2000%Z) [("a", VMap [("x", VNum 1)]); ("b", VNum 3)];
            point (Some 1000%Z) [("c", VNum 4)];
            point (Some 2000%Z) [("a", VMap [("y", VNum 2)])]]).
  - repeat constructor; eexists; eexists; reflexivity.
  - intros e1 e2 c1 c2 k [<- | [<- | [<- | []]]] [<- | [<- | [<- | []]]] H1 H2;
      vm_compute in H1, H2; congruence.
  - repeat constructor;
      (eexists; split; [reflexivity |]; repeat constructor; cbn; intuition discriminate).
  - vm_compute. intuition discriminate.
Defined.

(** The order of the output: of two events at 2000 and at 1000 ms, in that
    order, [merge] returns the one at 1000 first; past the range of the
    array indices the events come out as they came in. *)
Example merge_order :
  Event.merge [point (Some 2000%Z) [("a", VNum 1)]; point (Some 1000%Z) [("b", VNum 2)]]
  = Ok [point (Some 1000%Z) [("b", VNum 2)]; point (Some 2000%Z) [("a", VNum 1)]] /\
  Event.merge [point (Some 1429707600000%Z) [("a", VNum 1)];
               point (Some 1429673400000%Z) [("b", VNum 2)]]
  = Ok [point (Some 1429707600000%Z) [("a", VNum 1)];
        point (Some 1429673400000%Z) [("b", VNum 2)]].
Proof. split; vm_compute; reflexivity. Qed.

(** C3, as stated, fails on nested mappings: of two events at one time with
    data {a: {x: 1}} and {a: {y: 2}}, [merge] keeps {a: {y: 2}}, where the
    deep merge is {a: {x: 1, y: 2}}. *)
Lemma merge_is_not_deep :
  let events := [point (Some 1000%Z) [("a", VMap [("x", VNum 1)])];
                 point (Some 1000%Z) [("a", VMap [("y", VNum 2)])]] in
  exists o,
    Event.merge events = Ok [o] /\
    Event.data_of o = VMap [("a", VMap [("y", VNum 2)])] /\
    fold_left deep_merge (List.map Event.data_of events) (VMap [])
    = VMap [("a", VMap [("x", VNum 1); ("y", VNum 2)])] /\
    Event.data_of o <> fold_left deep_merge (List.map Event.data_of events) (VMap []).
Proof.
  eexists. split; [reflexivity |]. split; [reflexivity |]. split; [reflexivity |].
  vm_compute. intros H. discriminate H.
Qed.

(** ** What [combine] reduces when no field spec is given *)

Lemma lookup_collect (result : Props (list Val)) (key f : string) (value : Val) :
  lookup f (Event.collect result key value) =
  if String.eqb key f then Some (so_far (lookup f result) ++ [value])
  else lookup f result.
Proof.
  unfold Event.collect, has. rewrite lookup_push.
  destruct (String.eqb key f) eqn:E.
  - apply String.eqb_eq in E. subst f.
    destruct (lookup key result) as [l |] eqn:L; cbn [negb].
    + rewrite L. reflexivity.
    + rewrite lookup_set_same. reflexivity.
  - destruct (lookup key result); cbn [negb]; [reflexivity |].
    apply lookup_set_other. intros ->. now rewrite String.eqb_refl in E.
Qed.

Lemma keys_collect_NoDup (result : Props (list Val)) (key : string) (value : Val) :
  NoDup (keys result) -> NoDup (keys (Event.collect result key value)).
Proof.
  intros Hnd. unfold Event.collect. rewrite keys_push.
  destruct (has key result) eqn:H; cbn [negb]; [assumption |].
  rewrite keys_set, H. apply NoDup_app; [assumption | repeat constructor; intros [] |].
  intros x Hx [<- | []]. unfold has in H.
  destruct (lookup key result) eqn:L; [discriminate |].
  apply lookup_keys_None in L. contradiction.
Qed.

Lemma lookup_map_values (g : Val -> Val) (o : list (string * Val)) (f : string) :
  lookup f (List.map (fun kv : string * Val => let (k, x) := kv in (k, g x)) o)
  = option_map g (lookup f o).
Proof.
  induction o as [| [k x] o IH]; cbn; [reflexivity |].
  destruct (String.eqb f k); [reflexivity | assumption].
Qed.

Lemma keys_map_values (g : Val -> Val) (o : list (string * Val)) :
  keys (List.map (fun kv : string * Val => let (k, x) := kv in (k, g x)) o) = keys o.
Proof. unfold keys. rewrite map_map. apply map_ext. now intros [k x]. Qed.

(** Enumeration looks at the names only. *)
Lemma place_map {A B : Type} (h : string * A -> string * B) (kv : string * A)
      (o : Props A) :
  (forall x, fst (h x) = fst x) ->
  place (h kv) (List.map h o) = List.map h (place kv o).
Proof.
  intros Hh. induction o as [| kv' o IH]; cbn; [reflexivity |].
  rewrite !Hh. destruct (before (fst kv) (fst kv')); cbn; [reflexivity |].
  now rewrite IH.
Qed.

Lemma own_entries_map {A B : Type} (h : string * A -> string * B) (o : Props A) :
  (forall x, fst (h x) = fst x) ->
  own_entries (List.map h o) = List.map h (own_entries o).
Proof.
  intros Hh. induction o as [| kv o IH] using rev_ind; [reflexivity |].
  rewrite map_app. cbn [List.map]. rewrite !own_entries_snoc, IH.
  now apply place_map.
Qed.

Lemma own_entries_map_values (g : Val -> Val) (o : list (string * Val)) :
  own_entries (List.map (fun kv : string * Val => let (k, x) := kv in (k, g x)) o)
  = List.map (fun kv : string * Val => let (k, x) := kv in (k, g x)) (own_entries o).
Proof. apply own_entries_map. now intros [k x]. Qed.

(** The JSON form of a Map is walked by index exactly when the Map is. *)
Lemma array_like_toJSON (m : Entries) :
  array_like (List.map (fun kv : string * Val => let (k, x) := kv in (k, toJSON x)) m)
  = array_like m.
Proof.
  unfold array_like. rewrite lookup_map_values.
  destruct (lookup "length" m) as [[| | | | | | [ms |] | | | |] |]; reflexivity.
Qed.

(** The field names [combine] takes from an event when it is given none. *)
Lemma fields_of_map (e : Event.Any) (m : Entries) :
  Event.data_of e = VMap m -> array_like m = None ->
  (json <- data_toJSON (Event.data_of e) ;;
   entries <- map_entries json ;;
   Ok (List.map fst entries))
  = Ok (List.map KString (keys (own_entries m))).
Proof.
  intros Hm Hal. rewrite Hm. unfold data_toJSON. cbn [collection bind toJSON].
  unfold map_entries, each_entries. rewrite array_like_toJSON, Hal. cbn [bind].
  rewrite own_entries_map_values. unfold keys. rewrite !map_map. f_equal.
  apply map_ext. now intros [k x].
Qed.

(** One field of one event, when its name is no member of Object.prototype. *)
Lemma collect_value_named (e : Event.Any) (m : Entries) (acc : Props (list Val))
      (k : string) :
  Event.data_of e = VMap m -> inherited k = false ->
  Event.collect_value e acc (KString k) = Ok (Event.collect acc k (Map_get m k)).
Proof.
  intros Hm Hk. unfold Event.collect_value, Event.collect, Map_get.
  cbn [Key_toString]. rewrite Hk, orb_false_r, Hm.
  cbn [data_get collection bind get_opt].
  destruct (has k acc) eqn:H; cbn [negb]; [now rewrite H | now rewrite has_set_same].
Qed.

(** Under the name of a member of Object.prototype there is no list to
    push to. *)
Lemma collect_value_inherited (e : Event.Any) (m : Entries) (k : string) :
  Event.data_of e = VMap m -> inherited k = true ->
  Event.collect_value e [] (KString k)
  = Err (TypeError "mapEvent[fieldName].push is not a function").
Proof.
  intros Hm Hk. unfold Event.collect_value. cbn [Key_toString].
  rewrite Hk, orb_true_r, Hm. reflexivity.
Qed.

(** The loop over the field names of one event. *)
Lemma collect_fields (e : Event.Any) (m : Entries) (ks : list string)
      (acc : Props (list Val)) :
  Event.data_of e = VMap m -> NoDup ks ->
  Forall (fun k => inherited k = false) ks -> NoDup (keys acc) ->
  exists acc',
    foldM (Event.collect_value e) (List.map KString ks) acc = Ok acc' /\
    NoDup (keys acc') /\
    forall f, lookup f acc' =
              if existsb (String.eqb f) ks
              then Some (so_far (lookup f acc) ++ [Map_get m f])
              else lookup f acc.
Proof.
  intros Hm Hks. revert acc.
  induction Hks as [| k ks Hnot Hks IH]; intros acc Hplain Hacc;
    cbn [foldM List.map].
  - exists acc. split; [reflexivity | split; [assumption | reflexivity]].
  - inversion Hplain as [| ? ? Hk Hplain']; subst.
    rewrite (collect_value_named e m acc k Hm Hk). cbn [bind].
    destruct (IH (Event.collect acc k (Map_get m k)) Hplain')
      as (acc' & Hfold & Hnd & Hacc').
    { now apply keys_collect_NoDup. }
    exists acc'. split; [exact Hfold | split; [assumption |]].
    intros f. rewrite Hacc', lookup_collect. cbn [existsb].
    rewrite (String.eqb_sym f k).
    destruct (String.eqb k f) eqn:E; cbn [orb]; [| reflexivity].
    apply String.eqb_eq in E. subst f.
    apply existsb_eqb_notIn in Hnot. rewrite Hnot. reflexivity.
Qed.

Lemma existsb_keys {V : Type} (f : string) (o : Props V) :
  existsb (String.eqb f) (keys o) = has f o.
Proof.
  unfold has. destruct (lookup f o) eqn:L.
  - destruct (existsb (String.eqb f) (keys o)) eqn:E; [reflexivity |].
    apply existsb_eqb_notIn, lookup_keys_None in E. congruence.
  - now apply existsb_eqb_notIn, lookup_keys_None.
Qed.

(** The loop over the events of one group. *)
Lemma collect_events (evs : list Event.Any) (acc : Props (list Val)) :
  Forall named_payload evs -> NoDup (keys acc) ->
  exists acc',
    foldM (fun mapEvent event =>
             fields <- (json <- data_toJSON (Event.data_of event) ;;
                        entries <- map_entries json ;;
                        Ok (List.map fst entries)) ;;
             foldM (Event.collect_value event) fields mapEvent)
          evs acc = Ok acc' /\
    NoDup (keys acc') /\
    forall f, lookup f acc' =
              match field_values f evs with
              | Some vs => Some (so_far (lookup f acc) ++ vs)
              | None => lookup f acc
              end.
Proof.
  intros Hall. revert acc.
  induction Hall as [| e evs (m & Hm & Hnd & Hplain & Hal) _ IH]; intros acc Hacc;
    cbn [foldM field_values].
  - exists acc. split; [reflexivity | split; [assumption | reflexivity]].
  - rewrite (fields_of_map e m Hm Hal). cbn [bind].
    destruct (collect_fields e m (keys (own_entries m)) acc Hm)
      as (acc1 & Hfold1 & Hnd1 & Hacc1).
    { now apply own_entries_NoDup. }
    { rewrite Forall_forall in *. intros k Hk. apply Hplain.
      apply (Permutation_in _ (keys_perm _ _ (own_entries_perm m)) Hk). }
    { assumption. }
    rewrite Hfold1. cbn [bind].
    destruct (IH acc1 Hnd1) as (acc' & Hfold & Hnd' & Hacc').
    exists acc'. split; [exact Hfold | split; [assumption |]].
    intros f. rewrite Hacc', Hacc1, Hm, existsb_keys. unfold has, Map_get.
    rewrite (lookup_own_entries f m Hnd).
    destruct (lookup f m) as [v |] eqn:L.
    + destruct (field_values f evs) as [vs |]; cbn [so_far].
      * now rewrite <- app_assoc.
      * reflexivity.
    + reflexivity.
Qed.

Lemma foldM_pure {A S : Type} (f : S -> A -> Result S) (g : S -> A -> S)
      (l : list A) (s : S) :
  (forall s a, f s a = Ok (g s a)) -> foldM f l s = Ok (fold_left g l s).
Proof.
  intros H. revert s. induction l as [| a l IH]; intros s; cbn; [reflexivity |].
  rewrite H. cbn. apply IH.
Qed.

Lemma lookup_fromJS (o : list (string * Val)) (f : string) :
  lookup f (List.map (fun kv : string * Val => let (k, x) := kv in (k, fromJS x)) o)
  = option_map fromJS (lookup f o).
Proof. apply lookup_map_values. Qed.

(** What [fromJS] makes of an object that has no [constructor] of its
    own. *)
Lemma fromJS_object (o : list (string * Val)) :
  lookup "constructor" o = None ->
  exists m, fromJS (VObj o) = VMap m /\
            forall f, lookup f m = option_map fromJS (lookup f o).
Proof.
  intros Hc. cbn [fromJS]. unfold isPlainObj. rewrite Hc.
  eexists. split; [reflexivity |]. intros f.
  rewrite lookup_enumerated. apply lookup_fromJS.
Qed.

(** No event of the list carries a field of that name. *)
Lemma field_values_inherited (f : string) (evs : list Event.Any) :
  Forall named_payload evs -> inherited f = true -> field_values f evs = None.
Proof.
  intros Hall Hf.
  induction Hall as [| e evs (m & Hm & _ & Hplain & _) _ IH]; [reflexivity |].
  cbn [field_values]. rewrite IH, Hm.
  destruct (lookup f m) eqn:L; [| reflexivity].
  assert (Hin : In f (keys m)).
  { destruct (existsb (String.eqb f) (keys m)) eqn:E.
    - now apply existsb_eqb_In.
    - apply existsb_eqb_notIn, lookup_keys_None in E. congruence. }
  rewrite Forall_forall in Hplain. rewrite (Hplain f Hin) in Hf. discriminate.
Qed.

Lemma members_named (k : string) (events : list Event.Any) :
  Forall named_payload events -> Forall named_payload (members k events).
Proof.
  rewrite !Forall_forall. intros H e He. apply members_In in He. now apply H.
Qed.

(** C4, as the code has it.  With no field spec and a reducer that is a
    pure function, on a homogeneous collection of events, none of them
    grouped under the name __proto__, whose data are mappings with fields
    that are walked by name (no field named like a member of
    Object.prototype, no numeric [length]), [combine] returns one event per
    group, in the order the engine enumerates the keys of the groups.  The
    fields of its data are those carried by any event of the group, and
    each holds the reducer's result on the values of that field in the
    events that carry it, in input order. *)
Theorem combine_reduces_every_field (events : list Event.Any)
        (reducer : list Val -> Val) :
  Forall keyed events -> homogeneous events -> Forall named_payload events ->
  ~ In "__proto__" (group_keys events) ->
  exists outs,
    Event.combine events Event.FUnset (fun values => Ok (reducer values)) = Ok outs /\
    Forall2 (fun g o =>
               exists m, Event.data_of o = VMap m /\
                         forall f, lookup f m =
                                   option_map (fun values => fromJS (reducer values))
                                              (field_values f (snd g)))
            (own_entries (groups events)) outs.
Proof.
  intros Hkeyed Hhom Hmaps Hproto. unfold Event.combine.
  destruct (List.length events =? 0)%nat eqn:Hlen.
  - destruct events; [| discriminate]. exists []. split; [reflexivity | constructor].
  - destruct (grouping_ends events ([], []) Hkeyed Hhom (homogeneous_agrees events))
      as ([eventMap typeMap] & Hfold).
    rewrite Hfold. cbn [bind].
    pose proof (grouping_eventMap _ _ Hfold) as Hem. cbn [fst] in Hem. subst eventMap.
    rewrite (each_group_groups events Hproto). cbn [bind].
    match goal with
    | |- exists outs, foldM ?step _ _ = _ /\ Forall2 ?P _ _ =>
        destruct (foldM_appends step P (own_entries (groups events)))
          with (outs := @nil Event.Any)
        as (outs & Houts & Hall)
    end.
    + intros outs [k evs] Hin. apply (proj1 (own_entries_In _ _)) in Hin.
      destruct (groups_class _ _ _ _ Hkeyed Hfold Hin) as [-> [c Hc]].
      cbn [snd] in Hc.
      pose proof (members_named k _ Hmaps) as Hmem.
      destruct (collect_events (members k events) [] Hmem)
        as (mapEvent & HmE & Hnd & HmapEvent); [constructor |].
      cbv beta iota zeta.
      match goal with
      | |- exists o, bind ?c _ = _ /\ _ =>
          replace c with (Ok mapEvent) by (symmetry; exact HmE)
      end.
      cbn [bind].
      match goal with
      | |- exists o, bind ?c _ = _ /\ _ =>
          replace c
            with (Ok (fold_left (fun d kv => set (fst kv) (reducer (snd kv)) d)
                                (own_entries mapEvent) []))
            by (symmetry; apply foldM_pure; intros s [fieldName values]; reflexivity)
      end.
      cbn [bind].
      set (d := fold_left (fun d kv => set (fst kv) (reducer (snd kv)) d)
                          (own_entries mapEvent) []).
      assert (Hd : forall f, lookup f d = option_map reducer (lookup f mapEvent)).
      { intros f. unfold d.
        rewrite (lookup_fold_set reducer) by (now apply own_entries_NoDup).
        rewrite (lookup_own_entries f mapEvent Hnd).
        destruct (lookup f mapEvent); reflexivity. }
      destruct (fromJS_object d) as (m & Hm & Hlookup).
      { rewrite Hd, HmapEvent.
        now rewrite (field_values_inherited "constructor" _ Hmem eq_refl). }
      destruct (build_data typeMap k c (VObj d) (VMap m) outs Hc) as (o & -> & Ho).
      { unfold dataFromArg. cbn [isObject]. now rewrite Hm. }
      exists o. split; [reflexivity |]. exists m. split; [exact Ho |].
      intros f. rewrite Hlookup, Hd, HmapEvent. cbn [snd lookup so_far app].
      destruct (field_values f (members k events)); reflexivity.
    + exists outs. split; assumption.
Qed.

Lemma combine_reduces_every_field_witness :
  exists outs,
    Event.combine [point (Some 2000%Z) [("a", VNum 1)];
                   point (Some 1000%Z) [("c", VNum 3)];
                   point (Some 2000%Z) [("a", VNum 4); ("b", VNum 2)]]
                  Event.FUnset (fun values => Ok (sum_values values)) = Ok outs /\
    Forall2 (fun g o =>
               exists m, Event.data_of o = VMap m /\
                         forall f, lookup f m =
                                   option_map (fun values => fromJS (sum_values values))
                                              (field_values f (snd g)))
            (own_entries
               (groups [point (Some 2000%Z) [("a", VNum 1)];
                        point (Some 1000%Z) [("c", VNum 3)];
                        point (Some 2000%Z) [("a", VNum 4); ("b", VNum 2)]]))
            outs.
Proof.
  apply (combine_reduces_every_field
           [point (Some 2000%Z) [("a", VNum 1)];
            point (Some 1000%Z) [("c", VNum 3)];
            point (Some 2000%Z) [("a", VNum 4); ("b", VNum 2)]]
           sum_values).
  - repeat constructor; eexists; eexists; reflexivity.
  - intros e1 e2 c1 c2 k [<- | [<- | [<- | []]]] [<- | [<- | [<- | []]]] H1 H2;
      vm_compute in H1, H2; congruence.
  - repeat constructor;
      (eexists; split; [reflexivity |];
       split; [repeat constructor; cbn; intuition discriminate |];
       split; [repeat constructor | reflexivity]).
  - vm_compute. intuition discriminate.
Defined.

(** What the conditions on the fields keep out.  A field named like a
    member of Object.prototype makes [combine] throw, with or without a
    field spec; and data with a numeric [length] are walked by index, so
    that the fields reduced are "0" and "1", each over an undefined. *)
Example combine_inherited_name :
  Event.combine [point (Some 1000%Z) [("toString", VNum 1)]] Event.FUnset
                (fun values => Ok (sum_values values))
  = Err (TypeError "mapEvent[fieldName].push is not a function") /\
  Event.combine [point (Some 1000%Z) [("a", VNum 1)]] (Event.FArray ["constructor"])
                (fun values => Ok (sum_values values))
  = Err (TypeError "mapEvent[fieldName].push is not a function").
Proof. split; vm_compute; reflexivity. Qed.

Example combine_length_field :
  Event.combine [point (Some 1000%Z) [("length", VNum 2); ("a", VNum 5)]] Event.FUnset
                (fun values => Ok (VArr values))
  = Ok [point (Some 1000%Z) [("0", VList [VUndefined]); ("1", VList [VUndefined])]].
Proof. vm_compute. reflexivity. Qed.

(** C4, as stated, fails when a later event of the group carries a field
    the first one lacks: of two events at one time with data {a: 1} and
    {b: 2}, [combine] without a field spec and with a summing reducer
    returns {a: 1, b: 2}: b is reduced as well. *)
Lemma combine_reduces_later_fields :
  let events := [point (Some 1000%Z) [("a", VNum 1)];
                 point (Some 1000%Z) [("b", VNum 2)]] in
  exists o m first,
    Event.combine events Event.FUnset (fun values => Ok (sum_values values))
    = Ok [o] /\
    Event.data_of o = VMap m /\
    m = [("a", VNum 1); ("b", VNum 2)] /\
    option_map Event.data_of (hd_error events) = Some (VMap first) /\
    has "b" m = true /\ has "b" first = false.
Proof.
  eexists. eexists. eexists.
  split; [reflexivity |]. split; [reflexivity |]. split; [reflexivity |].
  split; [reflexivity |]. split; reflexivity.
Qed.

(** * Further properties of the event core *)

(** ** Plain and Immutable values *)

Lemma map_values_id (g : Val -> Val) (o : list (string * Val)) :
  Forall (fun kv => g (snd kv) = snd kv) o ->
  List.map (fun kv : string * Val => let (k, x) := kv in (k, g x)) o = o.
Proof.
  induction 1 as [| [k x] o Hx _ IH]; cbn; [reflexivity |].
  cbn in Hx. now rewrite Hx, IH.
Qed.

Lemma map_items_id (g : Val -> Val) (l : list Val) :
  Forall (fun x => g x = x) l -> List.map g l = l.
Proof. induction 1 as [| x l Hx _ IH]; cbn; [reflexivity |]. now rewrite Hx, IH. Qed.

Lemma Forall_items2 (P : Val -> Prop) (b1 b2 : Val -> bool) (l : list Val) :
  Forall (fun x => b1 x = true -> b2 x = true -> P x) l ->
  forallb b1 l = true -> forallb b2 l = true -> Forall P l.
Proof.
  induction 1 as [| x l Hx _ IH]; cbn; intros H1 H2; [constructor |].
  apply andb_true_iff in H1, H2. destruct H1, H2. constructor; auto.
Qed.

Lemma Forall_props2 (P : Val -> Prop) (b1 b2 : Val -> bool)
      (o : list (string * Val)) :
  Forall (fun kv => b1 (snd kv) = true -> b2 (snd kv) = true -> P (snd kv)) o ->
  forallb (fun kv : string * Val => let (_, x) := kv in b1 x) o = true ->
  forallb (fun kv : string * Val => let (_, x) := kv in b2 x) o = true ->
  Forall (fun kv => P (snd kv)) o.
Proof.
  induction 1 as [| [k x] o Hx _ IH]; cbn; intros H1 H2; [constructor |].
  apply andb_true_iff in H1, H2. destruct H1, H2. constructor; auto.
Qed.

Lemma canonical_entries (o : list (string * Val)) :
  (in_order (keys o) && isPlainObj o && negb (has "__proto__" o)
   && forallb (fun kv : string * Val => let (_, x) := kv in canonical x) o)%bool = true ->
  in_order (keys o) = true /\ isPlainObj o = true /\
  forallb (fun kv : string * Val => let (_, x) := kv in canonical x) o = true.
Proof.
  intros H. apply andb_true_iff in H. destruct H as [H H4].
  apply andb_true_iff in H. destruct H as [H H3].
  apply andb_true_iff in H. destruct H as [H1 H2]. auto.
Qed.

Lemma isPlainObj_toJS (m : Entries) :
  isPlainObj m = true ->
  isPlainObj (List.map (fun kv : string * Val => let (k, x) := kv in (k, toJS x)) m)
  = true.
Proof.
  unfold isPlainObj. rewrite lookup_map_values.
  destruct (lookup "constructor" m) as [[] |]; cbn; intros H;
    try reflexivity; discriminate H.
Qed.

(** A plain structure converted to Immutable collections and back is the
    structure it was. *)
Lemma toJS_fromJS (v : Val) :
  plain v = true -> canonical v = true -> toJS (fromJS v) = v.
Proof.
  induction v as [| | b | q | | s | t | l IH | o IH | l IH | m IH]
    using Val_nested_ind; cbn [plain canonical]; intros Hp Hc;
    try reflexivity; try discriminate.
  - cbn [fromJS toJS]. rewrite map_map. f_equal.
    apply (map_items_id (fun x => toJS (fromJS x))).
    exact (Forall_items2 (fun x => toJS (fromJS x) = x) plain canonical l IH Hp Hc).
  - apply canonical_entries in Hc. destruct Hc as (Hord & Hobj & Hc).
    cbn [fromJS]. rewrite Hobj.
    rewrite own_entries_in_order by (now rewrite keys_map_values).
    cbn [toJS]. rewrite map_map. f_equal.
    etransitivity;
      [| apply (map_values_id (fun x => toJS (fromJS x)) o);
         exact (Forall_props2 (fun x => toJS (fromJS x) = x) plain canonical o
                              IH Hp Hc)].
    apply map_ext. now intros [k x].
Qed.

(** An Immutable structure rendered plain and converted again is the
    structure it was. *)
Lemma fromJS_toJS (v : Val) :
  immutable v = true -> canonical v = true -> fromJS (toJS v) = v.
Proof.
  induction v as [| | b | q | | s | t | l IH | o IH | l IH | m IH]
    using Val_nested_ind; cbn [immutable canonical]; intros Hp Hc;
    try reflexivity; try discriminate.
  - cbn [fromJS toJS]. rewrite map_map. f_equal.
    apply (map_items_id (fun x => fromJS (toJS x))).
    exact (Forall_items2 (fun x => fromJS (toJS x) = x) immutable canonical l
                         IH Hp Hc).
  - apply canonical_entries in Hc. destruct Hc as (Hord & Hobj & Hc).
    cbn [toJS fromJS]. rewrite (isPlainObj_toJS m Hobj).
    rewrite own_entries_in_order by (now rewrite !keys_map_values).
    rewrite map_map. f_equal.
    etransitivity;
      [| apply (map_values_id (fun x => fromJS (toJS x)) m);
         exact (Forall_props2 (fun x => fromJS (toJS x) = x) immutable canonical m
                              IH Hp Hc)].
    apply map_ext. now intros [k x].
Qed.

(** ** Writing and reading along a path *)

Lemma nth_error_replace_nth (i : nat) (x y : Val) (l : list Val) :
  nth_error l i = Some y -> nth_error (replace_nth i x l) i = Some x.
Proof.
  revert i. induction l as [| z l IH]; intros [| i]; cbn; intros H;
    try discriminate; [reflexivity | auto].
Qed.

Lemma get_opt_List_set (k : string) (x y : Val) (l : list Val) :
  get_opt (VList l) k = Some y -> get_opt (VList (List_set k x l)) k = Some x.
Proof.
  unfold get_opt, List_set. destruct (array_index k) as [i |]; [| discriminate].
  intros H. assert (Hlt : (i < List.length l)%nat)
    by (apply nth_error_Some; congruence).
  apply Nat.ltb_lt in Hlt. rewrite Hlt. eapply nth_error_replace_nth; eauto.
Qed.

Lemma setIn_opt_present (path : list string) (v old x : Val) :
  getIn_opt v path = Some old ->
  exists r, setIn_opt (Some v) path x = Ok r /\ getIn_opt r path = Some x.
Proof.
  revert v. induction path as [| k path IH]; intros v H;
    cbn [getIn_opt] in H; cbn [setIn_opt].
  - exists x. split; reflexivity.
  - destruct (get_opt v k) as [y |] eqn:G; [| discriminate].
    destruct (IH y H) as (r & Hr & Hget).
    destruct v; try discriminate G.
    + rewrite G, Hr. cbn [bind]. eexists. split; [reflexivity |].
      cbn [getIn_opt]. erewrite get_opt_List_set by eassumption. exact Hget.
    + cbn [get_opt] in G. rewrite G, Hr. cbn [bind]. eexists. split; [reflexivity |].
      cbn [getIn_opt get_opt]. rewrite lookup_set_same. exact Hget.
Qed.

(** A value written with [setIn] at a path that [hasIn] finds is the value
    [getIn] reads there afterwards. *)
Theorem setIn_then_getIn (v x : Val) (path : list string) :
  path <> [] -> hasIn v path = Ok true ->
  exists r, setIn v path x = Ok r /\ getIn r path = Ok x /\ hasIn r path = Ok true.
Proof.
  intros Hne H. unfold hasIn, getIn, setIn in *.
  destruct (collection v) as [c |] eqn:C; [| discriminate]. cbn [bind] in *.
  assert (c = v) by (destruct v; try discriminate C; now injection C). subst c.
  destruct (getIn_opt v path) as [old |] eqn:G; [| discriminate].
  destruct (setIn_opt_present path v old x G) as (r & Hr & Hget).
  exists r. split; [exact Hr |].
  assert (Hc : collection r = Ok r).
  { destruct path as [| k path]; [contradiction |]. cbn in Hr.
    destruct v; try discriminate C;
      destruct (setIn_opt _ path x); try discriminate Hr;
      cbn in Hr; injection Hr as <-; reflexivity. }
  rewrite Hc. cbn [bind]. rewrite Hget. split; reflexivity.
Qed.

Lemma setIn_then_getIn_witness :
  exists r, setIn (VMap [("a", VList [VNull; VNum 2])]) ["a"; "0"] (VNum 7) = Ok r /\
            getIn r ["a"; "0"] = Ok (VNum 7) /\ hasIn r ["a"; "0"] = Ok true.
Proof.
  apply (setIn_then_getIn (VMap [("a", VList [VNull; VNum 2])]) (VNum 7) ["a"; "0"]).
  - discriminate.
  - reflexivity.
Defined.

(** ** Building events and replacing their data *)

(** X2.  [new Event(v, d)] returns an event exactly when [v] is a map with a
    time and a data entry, or [v] is a number or a date and [d] is an
    object, a number or a string. *)
Theorem new_succeeds_iff (v d : Val) :
  is_ok (Event.new (AVal v) d) =
  (time_data_map v || (time_source v && acceptable d))%bool.
Proof.
  unfold Event.new, acceptable.
  destruct v; cbn [time_data_map time_source timestampFromArg bind orb andb];
    try reflexivity;
    try (unfold dataFromArg;
         destruct (isObject d), (isNumber d), (isString d); reflexivity).
  match goal with
  | |- context [(has "time" ?m && has "data" ?m)%bool] =>
      destruct (has "time" m && has "data" m)%bool; reflexivity
  end.
Qed.

(** A first argument that is no time source is reported before the data
    are looked at. *)
Lemma new_bad_timestamp_first (v d : Val) :
  time_data_map v = false -> time_source v = false ->
  Event.new (AVal v) d = Err TimestampError.
Proof.
  unfold Event.new. destruct v; cbn; intros Hm Ht; try discriminate Ht;
    try reflexivity.
  now rewrite Hm.
Qed.

Section SetFacts.
Context {V : Type}.
Implicit Types (o : Props V) (k : string).

Lemma set_set k (v1 v2 : V) o : set k v2 (set k v1 o) = set k v2 o.
Proof.
  induction o as [| [k' v'] o IH]; cbn.
  - now rewrite String.eqb_refl.
  - destruct (String.eqb k k') eqn:E; cbn; rewrite E; [reflexivity | now rewrite IH].
Qed.

Lemma set_lookup_same k (v : V) o : lookup k o = Some v -> set k v o = o.
Proof.
  induction o as [| [k' v'] o IH]; cbn; [discriminate |].
  destruct (String.eqb k k') eqn:E.
  - now intros [= ->].
  - intros H. now rewrite IH.
Qed.
End SetFacts.

(** What [setData] returns on an event that has its time entry. *)
Lemma setData_ok (e : Event.t) (d x : Val) :
  invariant e -> dataFromArg d = Ok x ->
  Event.setData e d = Ok (Event.mk (set "data" x (Event._d e))).
Proof.
  intros [Htime _] Hd. unfold Event.setData. rewrite Hd. cbn [bind].
  unfold Event.new.
  rewrite has_set_same, has_set_other by discriminate. now rewrite Htime.
Qed.

Lemma set_data_invariant (e : Event.t) (x : Val) :
  invariant e -> invariant (Event.mk (set "data" x (Event._d e))).
Proof.
  intros [Htime _]. split; cbn [Event._d].
  - now rewrite has_set_other by discriminate.
  - apply has_set_same.
Qed.

(** X3.  Of two replacements in a row only the second shows: [setData(d1)]
    followed by [setData(d2)] gives what [setData(d2)] alone gives. *)
Theorem setData_twice (e : Event.t) (d1 d2 : Val) :
  invariant e -> acceptable d1 = true ->
  (e1 <- Event.setData e d1 ;; Event.setData e1 d2) = Event.setData e d2.
Proof.
  intros Hinv H1.
  pose proof (dataFromArg_acceptable d1) as Hd1. rewrite H1 in Hd1.
  rewrite (setData_ok e d1 _ Hinv Hd1). cbn [bind].
  destruct (dataFromArg d2) as [x2 | err] eqn:Hd2.
  - rewrite (setData_ok _ d2 x2 (set_data_invariant e _ Hinv) Hd2).
    rewrite (setData_ok e d2 x2 Hinv Hd2). cbn [Event._d]. now rewrite set_set.
  - unfold Event.setData. rewrite Hd2. reflexivity.
Qed.

Lemma setData_twice_witness :
  (e1 <- Event.setData
           (Event.mk [("time", VDate (Some 1000%Z)); ("data", VMap [("a", VNum 1)])])
           (VNum 5) ;;
   Event.setData e1 (VObj [("b", VNum 2)])) =
  Event.setData
    (Event.mk [("time", VDate (Some 1000%Z)); ("data", VMap [("a", VNum 1)])])
    (VObj [("b", VNum 2)]).
Proof.
  apply (setData_twice
           (Event.mk [("time", VDate (Some 1000%Z)); ("data", VMap [("a", VNum 1)])])
           (VNum 5) (VObj [("b", VNum 2)])).
  - split; reflexivity.
  - reflexivity.
Defined.

(** X4.  An event given its own data back is the event it was. *)
Theorem setData_own_data (e : Event.t) (m : Entries) :
  invariant e -> Event.data e = VMap m -> Event.setData e (Event.data e) = Ok e.
Proof.
  intros Hinv Hm. rewrite (setData_ok e (Event.data e) (VMap m) Hinv)
    by (rewrite Hm; reflexivity).
  destruct e as [d]. cbn [Event._d]. f_equal. f_equal.
  apply set_lookup_same. unfold Event.data, Map_get in Hm. cbn [Event._d] in Hm.
  destruct (lookup "data" d); [now subst | discriminate].
Qed.

Lemma setData_own_data_witness :
  Event.setData
    (Event.mk [("time", VDate (Some 1000%Z)); ("data", VMap [("a", VNum 1)])])
    (Event.data
       (Event.mk [("time", VDate (Some 1000%Z)); ("data", VMap [("a", VNum 1)])]))
  = Ok (Event.mk [("time", VDate (Some 1000%Z)); ("data", VMap [("a", VNum 1)])]).
Proof.
  apply (setData_own_data
           (Event.mk [("time", VDate (Some 1000%Z)); ("data", VMap [("a", VNum 1)])])
           [("a", VNum 1)]).
  - split; reflexivity.
  - reflexivity.
Defined.

(** ** Reading fields *)

Lemma get_read (e : Event.Any) (fieldPath : FieldPath) (c : Val) :
  collection (Event.data_of e) = Ok c ->
  Event.get e fieldPath = Ok (read e (fieldPathToArray fieldPath)).
Proof.
  intros Hc. unfold Event.get, getIn, read. rewrite Hc. cbn [bind].
  assert (c = Event.data_of e)
    by (destruct (Event.data_of e); try discriminate Hc; now injection Hc).
  subst c. destruct (getIn_opt _ _) as [[] |]; reflexivity.
Qed.

Lemma lookup_plain (o : Props Val) (k : string) (x : Val) :
  plain (VObj o) = true -> lookup k o = Some x -> plain x = true.
Proof.
  cbn [plain]. induction o as [| [k' y] o IH]; cbn; [discriminate |].
  intros H. apply andb_true_iff in H. destruct H as [Hy Ho].
  destruct (String.eqb k k'); [now intros [= <-] | auto].
Qed.

(** X1.  What goes in comes out: an event built from a time and a plain
    object that [fromJS] converts (it has no [constructor] entry of its
    own) answers [get] on a top-level field name with the value the object
    had under it, nested objects and arrays included; the value is taken
    as the engine lists it ([canonical]). *)
Theorem get_after_new (t : Val) (o : Props Val) (k : string) (v : Val) :
  time_source t = true -> plain (VObj o) = true -> isPlainObj o = true ->
  split_on "." k = [k] -> lookup k o = Some v -> canonical v = true ->
  exists e, Event.new (AVal t) (VObj o) = Ok e /\
            Event.get (Event.Point e) (FPString k) = Ok v.
Proof.
  intros Ht Hp Hobj Hk Hl Hc.
  assert (Hnew : exists time,
             Event.new (AVal t) (VObj o)
             = Ok (Event.mk [("time", time); ("data", fromJS (VObj o))])).
  { destruct t; try discriminate Ht; eexists; reflexivity. }
  destruct Hnew as [time Hnew]. eexists. split; [exact Hnew |].
  unfold Event.get. cbn [fieldPathToArray]. rewrite Hk.
  cbn [Event.data_of Event.data Event._d Map_get lookup String.eqb Ascii.eqb
       Bool.eqb fromJS]. rewrite Hobj.
  cbn [getIn collection bind getIn_opt get_opt].
  rewrite lookup_enumerated, lookup_map_values, Hl. cbn [option_map].
  pose proof (lookup_plain o k v Hp Hl) as Hpv.
  pose proof (toJS_fromJS v Hpv Hc) as Hv.
  destruct v; try discriminate Hpv; try reflexivity.
  - cbn [fromJS]. cbn [fromJS] in Hv. now rewrite Hv.
  - apply canonical_entries in Hc. destruct Hc as (_ & Hobj' & _).
    cbn [fromJS]. cbn [fromJS] in Hv. rewrite Hobj' in *. now rewrite Hv.
Qed.

(** An object with a [constructor] entry of its own is kept as it is, and
    [get] finds no collection to read. *)
Example get_after_new_constructor :
  exists e,
    Event.new (AVal (VNum 1000)) (VObj [("constructor", VNum 5)]) = Ok e /\
    Event.data e = VObj [("constructor", VNum 5)] /\
    Event.get (Event.Point e) (FPString "constructor")
    = Err (TypeError "not an Immutable collection").
Proof. eexists. split; [reflexivity |]. split; reflexivity. Qed.

Lemma get_after_new_witness :
  exists e,
    Event.new (AVal (VNum 1000)) (VObj [("a", VArr [VNum 1; VObj [("b", VNull)]]);
                                        ("c", VStr "x")]) = Ok e /\
    Event.get (Event.Point e) (FPString "a") = Ok (VArr [VNum 1; VObj [("b", VNull)]]).
Proof.
  apply (get_after_new (VNum 1000)
                       [("a", VArr [VNum 1; VObj [("b", VNull)]]); ("c", VStr "x")]
                       "a" (VArr [VNum 1; VObj [("b", VNull)]]));
    reflexivity.
Defined.

(** X5.  On an event whose data are a collection [get] never throws: a path
    that leads nowhere reads as undefined, and [isValidValue] is false
    there. *)
Theorem get_absent_path (e : Event.Any) (fieldPath : FieldPath) (c : Val) :
  collection (Event.data_of e) = Ok c ->
  getIn_opt (Event.data_of e) (fieldPathToArray fieldPath) = None ->
  Event.get e fieldPath = Ok VUndefined /\
  Event.isValidValue e fieldPath = Ok false.
Proof.
  intros Hc Hnone. unfold Event.isValidValue.
  rewrite (get_read e fieldPath c Hc). unfold read. rewrite Hnone.
  split; reflexivity.
Qed.

Lemma get_absent_path_witness :
  Event.get (point (Some 1000%Z) [("a", VMap [("b", VNum 1)])]) (FPString "a.c")
  = Ok VUndefined /\
  Event.isValidValue (point (Some 1000%Z) [("a", VMap [("b", VNum 1)])])
                     (FPString "a.c") = Ok false.
Proof.
  apply (get_absent_path (point (Some 1000%Z) [("a", VMap [("b", VNum 1)])])
                         (FPString "a.c") (VMap [("a", VMap [("b", VNum 1)])]));
    reflexivity.
Defined.

(** ** [collapse] and [selector] *)

Lemma mapM_get (e : Event.Any) (specs : list FieldPath) (c : Val) :
  collection (Event.data_of e) = Ok c ->
  mapM (fun fs => Event.get e fs) specs =
  Ok (List.map (fun fs => read e (fieldPathToArray fs)) specs).
Proof.
  intros Hc. induction specs as [| fs specs IH]; cbn [mapM List.map]; [reflexivity |].
  rewrite (get_read e fs c Hc), IH. reflexivity.
Qed.

Lemma map_values_set (g : Val -> Val) (k : string) (v : Val) (o : list (string * Val)) :
  List.map (fun kv : string * Val => let (k', x) := kv in (k', g x)) (set k v o) =
  set k (g v) (List.map (fun kv : string * Val => let (k', x) := kv in (k', g x)) o).
Proof.
  induction o as [| [k' x] o IH]; cbn; [reflexivity |].
  destruct (String.eqb k k'); cbn; [reflexivity | now rewrite IH].
Qed.

Lemma entries_fromJS_toJS (m : Entries) :
  immutable (VMap m) = true -> canonical (VMap m) = true ->
  List.map (fun kv : string * Val => let (k, x) := kv in (k, fromJS x))
           (List.map (fun kv : string * Val => let (k, x) := kv in (k, toJS x)) m) = m.
Proof.
  intros H Hc. pose proof (fromJS_toJS (VMap m) H Hc) as E.
  apply canonical_entries in Hc. destruct Hc as (Hord & Hobj & _).
  cbn [toJS fromJS] in E. rewrite (isPlainObj_toJS m Hobj) in E.
  rewrite own_entries_in_order in E by (now rewrite !keys_map_values).
  now injection E.
Qed.

Lemma before_no_index (k k' : string) : array_index k = None -> before k k' = false.
Proof. intros H. unfold before. now rewrite H. Qed.

Lemma set_in_order {V : Type} (k : string) (v : V) (o : Props V) :
  array_index k = None -> in_order (keys o) = true ->
  in_order (keys (set k v o)) = true.
Proof.
  intros Hk Ho. rewrite keys_set. destruct (has k o); [assumption |].
  rewrite in_order_snoc, Ho. apply forallb_forall. intros k' _.
  now rewrite (before_no_index k k' Hk).
Qed.

Lemma field_name_inv (k : string) :
  field_name k = true -> k <> "__proto__" /\ k <> "constructor".
Proof.
  unfold field_name. intros H. apply andb_true_iff in H. destruct H as [H1 H2].
  apply negb_true_iff in H1, H2. split; intros ->; discriminate.
Qed.

Lemma assign_field {V : Type} (k : string) (v : V) (o : Props V) :
  k <> "__proto__" -> assign k v o = Ok (set k v o).
Proof.
  intros H. unfold assign. apply String.eqb_neq in H. now rewrite H.
Qed.

Lemma isPlainObj_set (k : string) (v : Val) (o : Props Val) :
  k <> "constructor" -> isPlainObj (set k v o) = isPlainObj o.
Proof. intros H. unfold isPlainObj. now rewrite lookup_set_other. Qed.

(** X6.  [collapse] returns an event with the timestamp of the one it was
    called on; its data hold the reducer's result on the values read at
    the given paths, under [name], alone or, when appending, set on the
    fields the event had.  The name is one an assignment makes a field of
    and no array index, and the data are taken as the engine lists them. *)
Theorem collapse_data (e : Event.t) (m : Entries) (specs : list FieldPath)
        (name : string) (reducer : list Val -> Val) (append : bool) :
  invariant e -> Event.data e = VMap m -> immutable (VMap m) = true ->
  canonical (VMap m) = true -> field_name name = true -> array_index name = None ->
  exists e',
    Event.collapse e specs name (fun d => Ok (reducer d)) append = Ok e' /\
    Event.timestamp e' = Event.timestamp e /\
    Event.data e' =
    VMap (set name
              (fromJS (reducer (List.map (fun fs => read (Event.Point e)
                                                         (fieldPathToArray fs))
                                         specs)))
              (if append then m else [])).
Proof.
  intros Hinv Hm Him Hcan Hname Hidx. unfold Event.collapse.
  destruct (field_name_inv name Hname) as [Hproto Hctor].
  rewrite (mapM_get (Event.Point e) specs (VMap m)) by (cbn; rewrite Hm; reflexivity).
  set (r := reducer _).
  set (data := if append
               then List.map (fun kv : string * Val => let (k, x) := kv in (k, toJS x)) m
               else []).
  assert (Hdata : (if append
                   then c <- collection (Event.data e) ;;
                        match toJS c with
                        | VObj o => Ok o
                        | _ => Err (OutsideModel "a named property on an array")
                        end
                   else Ok []) = Ok data).
  { unfold data. destruct append; [rewrite Hm |]; reflexivity. }
  rewrite Hdata. cbn [bind]. rewrite assign_field by assumption. cbn [bind].
  fold r.
  destruct (canonical_entries m Hcan) as (Hord & Hobj & _).
  assert (Hplain : isPlainObj (set name r data) = true).
  { rewrite (isPlainObj_set name r data Hctor). unfold data.
    destruct append; [now apply isPlainObj_toJS | reflexivity]. }
  assert (Horder : in_order (keys (set name r data)) = true).
  { apply set_in_order; [assumption |]. unfold data.
    destruct append; [now rewrite keys_map_values | reflexivity]. }
  erewrite setData_ok; [| assumption | reflexivity].
  eexists. split; [reflexivity |]. split.
  - unfold Event.timestamp, Map_get. cbn [Event._d].
    now rewrite lookup_set_other by discriminate.
  - unfold Event.data, Map_get. cbn [Event._d]. rewrite lookup_set_same.
    cbn [fromJS]. rewrite Hplain.
    rewrite own_entries_in_order by (now rewrite keys_map_values).
    rewrite map_values_set. f_equal. f_equal. unfold data.
    destruct append; [now apply entries_fromJS_toJS | reflexivity].
Qed.

Lemma collapse_data_witness :
  exists e',
    Event.collapse
      (Event.mk [("time", VDate (Some 1000%Z));
                 ("data", VMap [("in", VNum 1); ("out", VNum 2)])])
      [FPString "in"; FPString "out"] "total"
      (fun d => Ok (sum_values d)) true = Ok e' /\
    Event.timestamp e' = VDate (Some 1000%Z) /\
    Event.data e' = VMap [("in", VNum 1); ("out", VNum 2); ("total", VNum 3)].
Proof.
  exact (collapse_data
           (Event.mk [("time", VDate (Some 1000%Z));
                      ("data", VMap [("in", VNum 1); ("out", VNum 2)])])
           [("in", VNum 1); ("out", VNum 2)]
           [FPString "in"; FPString "out"] "total" sum_values true
           (conj eq_refl eq_refl) eq_refl eq_refl eq_refl eq_refl eq_refl).
Defined.

(** Under the name [constructor] the object built is not one [fromJS]
    converts: the new event holds it as it is, no Immutable map. *)
Example collapse_constructor_name :
  Event.collapse (Event.mk [("time", VDate (Some 1000%Z)); ("data", VMap [("in", VNum 1)])])
                 [FPString "in"] "constructor" (fun d => Ok (sum_values d)) false
  = Ok (Event.mk [("time", VDate (Some 1000%Z));
                  ("data", VObj [("constructor", VNum 1)])]).
Proof. vm_compute. reflexivity. Qed.

(** A name that is an array index is listed before the fields the event
    had. *)
Example collapse_index_name :
  Event.collapse (Event.mk [("time", VDate (Some 1000%Z)); ("data", VMap [("in", VNum 1)])])
                 [FPString "in"] "0" (fun d => Ok (sum_values d)) true
  = Ok (Event.mk [("time", VDate (Some 1000%Z));
                  ("data", VMap [("0", VNum 1); ("in", VNum 1)])]).
Proof. vm_compute. reflexivity. Qed.

(** [setData] on any of the three classes: the data are replaced and the
    class and key stay. *)
Lemma setData_of_ok (ev : Event.Any) (d x : Val) :
  well_formed ev -> dataFromArg d = Ok x ->
  exists ev', Event.setData_of ev d = Ok ev' /\
              Event.data_of ev' = x /\
              Event.class_and_key ev' = Event.class_and_key ev /\
              ((exists c, collection x = Ok c) -> well_formed ev').
Proof.
  intros [_ Hwf] Hd. destruct ev as [p | i | r]; cbn [Event.setData_of].
  - rewrite (setData_ok p d x Hwf Hd). cbn [bind]. eexists.
    split; [reflexivity |]. split; [| split].
    + cbn. unfold Event.data, Map_get. cbn [Event._d]. now rewrite lookup_set_same.
    + cbn. unfold Event.timestamp, Map_get. cbn [Event._d].
      now rewrite lookup_set_other by discriminate.
    + intros Hx. split.
      * cbn. unfold Event.data, Map_get. cbn [Event._d].
        now rewrite lookup_set_same.
      * now apply set_data_invariant.
  - unfold IndexedEvent.setData. rewrite Hd. cbn [bind]. eexists.
    split; [reflexivity |]. split; [reflexivity |]. split; [reflexivity |].
    intros Hx. split; [exact Hx | exact I].
  - unfold TimeRangeEvent.setData. rewrite Hd. cbn [bind]. eexists.
    split; [reflexivity |]. split; [reflexivity |]. split; [reflexivity |].
    intros Hx. split; [exact Hx | exact I].
Qed.

Lemma lookup_immutable (m : Entries) (k : string) (x : Val) :
  immutable (VMap m) = true -> lookup k m = Some x -> immutable x = true.
Proof.
  cbn [immutable]. induction m as [| [k' y] m IH]; cbn; [discriminate |].
  intros H. apply andb_true_iff in H. destruct H as [Hy Hm].
  destruct (String.eqb k k'); [now intros [= <-] | auto].
Qed.

Lemma lookup_canonical (m : Entries) (k : string) (x : Val) :
  canonical (VMap m) = true -> lookup k m = Some x -> canonical x = true.
Proof.
  cbn [canonical]. intros H. apply canonical_entries in H. destruct H as (_ & _ & H).
  revert H. induction m as [| [k' y] m IH]; cbn; [discriminate |].
  intros H. apply andb_true_iff in H. destruct H as [Hy Hm].
  destruct (String.eqb k k'); [now intros [= <-] | auto].
Qed.

(** A top-level field read by [get] and converted again is the value the
    data hold, undefined when they hold none. *)
Lemma fromJS_read (ev : Event.Any) (m : Entries) (n : string) :
  Event.data_of ev = VMap m -> immutable (VMap m) = true ->
  canonical (VMap m) = true ->
  fromJS (read ev [n]) = Map_get m n.
Proof.
  intros Hm Him Hcan. unfold read, Map_get. rewrite Hm. cbn [getIn_opt get_opt].
  destruct (lookup n m) as [x |] eqn:L; [| reflexivity].
  pose proof (lookup_immutable m n x Him L) as Hx.
  pose proof (lookup_canonical m n x Hcan L) as Hc.
  destruct x; try reflexivity; try discriminate Hx; now apply fromJS_toJS.
Qed.

(** The loop of [selector] over the names. *)
Lemma selector_loop (ev : Event.Any) (c : Val) (names : list string)
      (acc : list (string * Val)) :
  collection (Event.data_of ev) = Ok c ->
  Forall (fun n => field_name n = true) names ->
  exists acc',
    foldM (fun data fieldName =>
             value <- Event.get ev (FPString fieldName) ;;
             assign fieldName value data)
          names acc = Ok acc' /\
    forall f, lookup f acc' =
              if existsb (String.eqb f) names
              then Some (read ev (split_on "." f))
              else lookup f acc.
Proof.
  intros Hc Hall. revert acc.
  induction Hall as [| n names Hn _ IH]; intros acc; cbn [foldM existsb].
  - exists acc. split; reflexivity.
  - rewrite (get_read ev (FPString n) c Hc). cbn [bind fieldPathToArray].
    rewrite assign_field by (now apply field_name_inv).
    destruct (IH (set n (read ev (split_on "." n)) acc)) as (acc' & Hfold & Hacc').
    exists acc'. split; [exact Hfold |]. intros f. rewrite Hacc', lookup_set.
    rewrite (String.eqb_sym f n).
    destruct (String.eqb n f) eqn:E; cbn [orb].
    + apply String.eqb_eq in E. subst f.
      destruct (existsb (String.eqb n) names); reflexivity.
    + reflexivity.
Qed.

Lemma names_without (k : string) (names : list string) :
  Forall (fun n => field_name n = true) names -> field_name k = false ->
  existsb (String.eqb k) names = false.
Proof.
  intros Hall Hk. apply existsb_eqb_notIn. intros Hin.
  rewrite Forall_forall in Hall. rewrite (Hall k Hin) in Hk. discriminate.
Qed.

(** X7.  [selector] with a list of top-level names, each one an assignment
    makes a field of, returns an event of the same class and key whose
    data hold exactly those names, each with the value the event had
    there; a name the event does not carry is there with undefined. *)
Theorem selector_keeps_named_fields (ev : Event.Any) (m : Entries)
        (names : list string) :
  well_formed ev -> Event.data_of ev = VMap m -> immutable (VMap m) = true ->
  canonical (VMap m) = true ->
  Forall (fun n => field_name n = true) names ->
  Forall (fun n => split_on "." n = [n]) names ->
  exists ev' m',
    Event.selector ev (Event.SArray names) = Ok ev' /\
    Event.data_of ev' = VMap m' /\
    (forall f, lookup f m' = if existsb (String.eqb f) names
                             then Some (Map_get m f) else None) /\
    Event.class_and_key ev' = Event.class_and_key ev.
Proof.
  intros Hwf Hm Him Hcan Hnames Hplain. unfold Event.selector.
  destruct (selector_loop ev (VMap m) names [])
    as (data & -> & Hdata); [now rewrite Hm | assumption |].
  cbn [bind].
  destruct (fromJS_object data) as (m' & Hm' & Hlookup).
  { rewrite Hdata, (names_without "constructor" names Hnames eq_refl). reflexivity. }
  destruct (setData_of_ok ev (VObj data) (VMap m') Hwf)
    as (ev' & Hset & Hev' & Hkey & _).
  { unfold dataFromArg. cbn [isObject]. now rewrite Hm'. }
  exists ev', m'. split; [exact Hset |]. split; [exact Hev' |].
  split; [| exact Hkey].
  intros f. rewrite Hlookup, Hdata.
  destruct (existsb (String.eqb f) names) eqn:E; [| reflexivity].
  cbn [option_map]. apply existsb_eqb_In in E.
  rewrite Forall_forall in Hplain. rewrite (Hplain f E).
  now rewrite (fromJS_read ev m f Hm Him Hcan).
Qed.

Lemma selector_keeps_named_fields_witness :
  exists ev' m',
    Event.selector (point (Some 1000%Z) [("7", VList [VNum 2]); ("in", VNum 1)])
                   (Event.SArray ["other"; "7"]) = Ok ev' /\
    Event.data_of ev' = VMap m' /\
    (forall f, lookup f m' = if existsb (String.eqb f) ["other"; "7"]
                             then Some (Map_get [("7", VList [VNum 2]); ("in", VNum 1)] f)
                             else None) /\
    Event.class_and_key ev' =
    Event.class_and_key (point (Some 1000%Z) [("7", VList [VNum 2]); ("in", VNum 1)]).
Proof.
  apply (selector_keeps_named_fields
           (point (Some 1000%Z) [("7", VList [VNum 2]); ("in", VNum 1)])
           [("7", VList [VNum 2]); ("in", VNum 1)] ["other"; "7"]).
  - split; [eexists; reflexivity | split; reflexivity].
  - reflexivity.
  - reflexivity.
  - reflexivity.
  - repeat constructor.
  - repeat constructor.
Defined.

(** The names come out as the engine enumerates them, an array index
    first; under the name constructor the data are no longer a collection. *)
Example selector_order :
  Event.selector (point (Some 1000%Z) [("b", VNum 1); ("1", VNum 2)])
                 (Event.SArray ["b"; "1"])
  = Ok (point (Some 1000%Z) [("1", VNum 2); ("b", VNum 1)]) /\
  option_map Event.data_of
    (match Event.selector (point (Some 1000%Z) [("constructor", VNum 1)])
                          (Event.SArray ["constructor"]) with
     | Ok ev' => Some ev'
     | Err _ => None
     end)
  = Some (VObj [("constructor", VNum 1)]).
Proof. split; vm_compute; reflexivity. Qed.

(** ** The JSON form of an event *)

Lemma toJSON_dateless (v : Val) : dateless v = true -> toJSON v = toJS v.
Proof.
  induction v as [| | b | q | | s | t | l IH | o IH | l IH | m IH]
    using Val_nested_ind; cbn [dateless]; intros Hp; try reflexivity; try discriminate.
  - cbn [toJSON toJS]. f_equal. apply map_ext_in. intros x Hx.
    rewrite Forall_forall in IH. apply (IH x Hx).
    rewrite forallb_forall in Hp. now apply Hp.
  - cbn [toJSON toJS]. f_equal. apply map_ext_in. intros [k x] Hx. f_equal.
    rewrite Forall_forall in IH. apply (IH (k, x) Hx).
    rewrite forallb_forall in Hp. exact (Hp (k, x) Hx).
Qed.

(** X8.  An event is built again from its JSON form: for an event whose
    time is a date a Date can hold and whose data are an Immutable
    collection without dates, taken as the engine lists them and as
    Immutable converts them ([canonical]), [toJSON] answers a time and data
    from which the constructor builds an event with the same timestamp and
    the same data. *)
Theorem toJSON_round_trip (e : Event.t) (t : TimeValue) :
  Event.timestamp e = VDate t -> valid_time t = true ->
  is_ok (collection (Event.data e)) = true ->
  immutable (Event.data e) = true -> dateless (Event.data e) = true ->
  canonical (Event.data e) = true ->
  exists time data e',
    Event.toJSON e = Ok (VObj [("time", time); ("data", data)]) /\
    Event.new (AVal time) data = Ok e' /\
    Event.timestamp e' = Event.timestamp e /\ Event.data e' = Event.data e.
Proof.
  intros Ht Hv Hc Hi Hd Hcan.
  exists (number_of_time t), (toJS (Event.data e)),
         (Event.mk [("time", VDate t); ("data", Event.data e)]).
  split; [| split; [| split; [now rewrite Ht | reflexivity]]].
  - unfold Event.toJSON. rewrite Ht. cbn [getTime bind]. unfold data_toJSON.
    destruct (Event.data e) as [| | | | | | | | | l | m]; try discriminate;
      cbn [collection bind]; now rewrite (toJSON_dateless _ Hd).
  - assert (Hdata : dataFromArg (toJS (Event.data e)) = Ok (Event.data e)).
    { unfold dataFromArg.
      destruct (Event.data e) as [| | | | | | | | | l | m] eqn:E; try discriminate;
        cbn [toJS isObject]; f_equal; exact (fromJS_toJS _ Hi Hcan). }
    destruct t as [z |].
    + cbn [number_of_time Event.new timestampFromArg bind].
      replace (timeclip (VNum (inject_Z z))) with (Some z)
        by (symmetry; exact (timeclip_number_of_time z Hv)).
      now rewrite Hdata.
    + cbn [number_of_time Event.new timestampFromArg bind]. now rewrite Hdata.
Qed.

Lemma toJSON_round_trip_witness :
  exists time data e',
    Event.toJSON (Event.mk [("time", VDate (Some 1000%Z));
                            ("data", VMap [("a", VList [VNum 1; VNull]);
                                           ("b", VStr "x")])])
    = Ok (VObj [("time", time); ("data", data)]) /\
    Event.new (AVal time) data = Ok e' /\
    Event.timestamp e'
    = Event.timestamp (Event.mk [("time", VDate (Some 1000%Z));
                                 ("data", VMap [("a", VList [VNum 1; VNull]);
                                                ("b", VStr "x")])]) /\
    Event.data e'
    = Event.data (Event.mk [("time", VDate (Some 1000%Z));
                            ("data", VMap [("a", VList [VNum 1; VNull]);
                                           ("b", VStr "x")])]).
Proof.
  apply (toJSON_round_trip
           (Event.mk [("time", VDate (Some 1000%Z));
                      ("data", VMap [("a", VList [VNum 1; VNull]); ("b", VStr "x")])])
           (Some 1000%Z)); reflexivity.
Defined.

(** Data with a field [constructor] do not come back: their JSON form is
    an object [fromJS] leaves as it is. *)
Example toJSON_round_trip_constructor :
  Event.toJSON (Event.mk [("time", VDate (Some 1000%Z));
                          ("data", VMap [("constructor", VNum 1)])])
  = Ok (VObj [("time", VNum 1000); ("data", VObj [("constructor", VNum 1)])]) /\
  Event.new (AVal (VNum 1000)) (VObj [("constructor", VNum 1)])
  = Ok (Event.mk [("time", VDate (Some 1000%Z));
                  ("data", VObj [("constructor", VNum 1)])]).
Proof. split; vm_compute; reflexivity. Qed.

(** * Further properties of grouping and reduction *)

(** ** Keys and the events built from them *)

(** The output event built for a key has the class and the key of the
    events grouped under it. *)
Lemma build_identity (typeMap : Props Event.Class) (key : string) (c : Event.Class)
      (e0 : Event.Any) (d d' : Val) (outEvents : list Event.Any) :
  lookup key typeMap = Some c ->
  Event.class_and_key e0 = Ok (c, key) -> valid_identity e0 ->
  dataFromArg d = Ok d' ->
  exists o, Event.build typeMap key d outEvents = Ok (outEvents ++ [o]) /\
            Event.data_of o = d' /\
            Event.class_and_key o = Ok (c, key).
Proof.
  intros L Hkey Hvalid Hd. unfold Event.build. rewrite L.
  destruct e0 as [p | i | r]; cbn [Event.class_and_key valid_identity] in Hkey, Hvalid.
  - destruct Hvalid as (t & Ht & Hv). rewrite Ht in Hkey. cbn in Hkey.
    injection Hkey as <- <-. rewrite ToNumber_string_of_time.
    assert (Hnew : Event.new (AVal (number_of_time t)) d =
                   Ok (Event.mk [("time", VDate t); ("data", d')])).
    { unfold Event.new. destruct t as [z |]; cbn [number_of_time timestampFromArg].
      - pose proof (timeclip_number_of_time z Hv) as Hc.
        cbn [number_of_time] in Hc. rewrite Hc, Hd. reflexivity.
      - rewrite Hd. reflexivity. }
    rewrite Hnew. cbn [bind]. eexists. split; [reflexivity |].
    split; reflexivity.
  - injection Hkey as <- <-. unfold IndexedEvent.new. rewrite Hd. cbn [bind].
    eexists. split; [reflexivity |]. split; reflexivity.
  - contradiction.
Qed.

Lemma groups_members (events : list Event.Any) (maps : Event.Groups)
      (k : string) (evs : list Event.Any) :
  Forall keyed events ->
  foldM Event.group_step events ([], []) = Ok maps ->
  In (k, evs) (groups events) ->
  evs = members k events /\
  exists c e0, lookup k (snd maps) = Some c /\ In e0 evs /\
               forall e, In e evs -> Event.class_and_key e = Ok (c, k).
Proof.
  intros Hall Hfold Hin. unfold groups in Hin. apply in_map_iff in Hin.
  destruct Hin as (k' & [= -> <-] & Hk). split; [reflexivity |].
  apply group_keys_In, in_map_iff in Hk. destruct Hk as (e0 & Hkey & He0).
  rewrite Forall_forall in Hall.
  destruct (grouping_typeMap _ _ _ Hfold) as [_ Hnew].
  assert (Hclass : forall e, In e (members k events) ->
                             exists c, Event.class_and_key e = Ok (c, k) /\
                                       lookup k (snd maps) = Some c).
  { intros e He. apply members_In in He. destruct He as [He Hek].
    destruct (Hall e He) as (c & k0 & Hck). unfold group_key in Hek.
    rewrite Hck in Hek. subst k0. exists c. split; [assumption |].
    now apply (Hnew e). }
  assert (Hin0 : In e0 (members k events)) by (apply members_In; now split).
  destruct (Hclass e0 Hin0) as (c & Hc0 & Lc).
  exists c, e0. split; [assumption |]. split; [assumption |].
  intros e He. destruct (Hclass e He) as (c' & Hc' & Lc'). congruence.
Qed.

Lemma Forall2_keys (gs : Props (list Event.Any)) (outs : list Event.Any)
      (P : string * list Event.Any -> Event.Any -> Prop) :
  (forall g o, P g o -> group_key o = fst g) ->
  Forall2 P gs outs -> List.map group_key outs = keys gs.
Proof.
  intros HP H. induction H as [| g o gs os Hgo _ IH]; cbn; [reflexivity |].
  now rewrite (HP g o Hgo), IH.
Qed.

(** X9.  [merge] on a homogeneous collection of point and indexed events,
    none of them grouped under the name __proto__, returns one event for
    each group key, in the order the engine enumerates the keys (the array
    indices first, in ascending order, then the others as they first
    appear), and each event is of the class and under the key of the
    events it was merged from. *)
Theorem merge_keeps_class_and_key (events : list Event.Any) :
  Forall keyed events -> homogeneous events -> Forall mapping_payload events ->
  Forall valid_identity events -> ~ In "__proto__" (group_keys events) ->
  exists outs,
    Event.merge events = Ok outs /\
    List.map group_key outs = keys (own_entries (groups events)) /\
    Forall2 (fun g o =>
               exists c, Event.class_and_key o = Ok (c, fst g) /\
                         forall e, In e (snd g) ->
                                   Event.class_and_key e = Ok (c, fst g))
            (own_entries (groups events)) outs.
Proof.
  intros Hkeyed Hhom Hmaps Hvalid Hproto. unfold Event.merge.
  destruct (List.length events =? 0)%nat eqn:Hlen.
  - destruct events; [| discriminate]. exists [].
    split; [reflexivity | split; [reflexivity | constructor]].
  - destruct (grouping_ends events ([], []) Hkeyed Hhom (homogeneous_agrees events))
      as ([eventMap typeMap] & Hfold).
    rewrite Hfold. cbn [bind].
    pose proof (grouping_eventMap _ _ Hfold) as Hem. cbn [fst] in Hem. subst eventMap.
    rewrite (each_group_groups events Hproto). cbn [bind].
    match goal with
    | |- exists outs, foldM ?step _ _ = _ /\ _ /\ Forall2 ?P _ _ =>
        destruct (foldM_appends step P (own_entries (groups events)))
          with (outs := @nil Event.Any)
        as (outs & Houts & Hall)
    end.
    + intros outs [k evs] Hin. apply (proj1 (own_entries_In _ _)) in Hin.
      destruct (groups_members _ _ _ _ Hkeyed Hfold Hin)
        as [-> (c & e0 & Hc & Hin0 & Hclass)].
      cbn [snd] in Hc.
      destruct (merge_payloads (members k events) [] (members_payload k _ Hmaps))
        as (data & -> & _).
      cbn [bind].
      assert (Hv0 : valid_identity e0).
      { rewrite Forall_forall in Hvalid. apply Hvalid.
        now apply members_In in Hin0. }
      destruct (build_identity typeMap k c e0 (VMap data) (VMap data) outs
                               Hc (Hclass e0 Hin0) Hv0 eq_refl)
        as (o & -> & _ & Ho).
      exists o. split; [reflexivity |]. exists c. split; assumption.
    + exists outs. split; [assumption |]. split; [| assumption].
      apply (Forall2_keys _ outs _) in Hall; [assumption |].
      intros g o (c & Ho & _). unfold group_key. now rewrite Ho.
Qed.

Lemma merge_keeps_class_and_key_witness :
  exists outs,
    Event.merge
      [point (Some 2000%Z) [("a", VNum 1)];
       Event.Indexed (IndexedEvent.mk "1d-12355" (VMap [("b", VNum 2)]));
       point (Some 1000%Z) [("c", VNum 3)];
       point (Some 2000%Z) [("d", VNum 4)]] = Ok outs /\
    List.map group_key outs =
    keys (own_entries
            (groups
               [point (Some 2000%Z) [("a", VNum 1)];
                Event.Indexed (IndexedEvent.mk "1d-12355" (VMap [("b", VNum 2)]));
                point (Some 1000%Z) [("c", VNum 3)];
                point (Some 2000%Z) [("d", VNum 4)]])) /\
    Forall2 (fun g o =>
               exists c, Event.class_and_key o = Ok (c, fst g) /\
                         forall e, In e (snd g) ->
                                   Event.class_and_key e = Ok (c, fst g))
            (own_entries
               (groups
                  [point (Some 2000%Z) [("a", VNum 1)];
                   Event.Indexed (IndexedEvent.mk "1d-12355" (VMap [("b", VNum 2)]));
                   point (Some 1000%Z) [("c", VNum 3)];
                   point (Some 2000%Z) [("d", VNum 4)]]))
            outs.
Proof.
  apply (merge_keeps_class_and_key
           [point (Some 2000%Z) [("a", VNum 1)];
            Event.Indexed (IndexedEvent.mk "1d-12355" (VMap [("b", VNum 2)]));
            point (Some 1000%Z) [("c", VNum 3)];
            point (Some 2000%Z) [("d", VNum 4)]]).
  - repeat constructor; eexists; eexists; reflexivity.
  - intros e1 e2 c1 c2 k [<- | [<- | [<- | [<- | []]]]] [<- | [<- | [<- | [<- | []]]]]
           H1 H2; vm_compute in H1, H2; congruence.
  - repeat constructor;
      (eexists; split; [reflexivity |]; repeat constructor; cbn; intuition discriminate).
  - repeat constructor; try (eexists; split; reflexivity).
  - vm_compute. intuition discriminate.
Defined.

(** ** [combine] with named fields *)




(** ** [map], [reduce] and [mapReduce] *)

Lemma collect_same (f : string) (l : list Val) (v : Val) :
  Event.collect [(f, l)] f v = [(f, l ++ [v])].
Proof.
  unfold Event.collect, has. cbn. rewrite String.eqb_refl. cbn.
  rewrite String.eqb_refl. reflexivity.
Qed.

Lemma collect_first (f : string) (v : Val) :
  Event.collect (@nil (string * list Val)) f v = [(f, [v])].
Proof. unfold Event.collect, has. cbn. rewrite String.eqb_refl. reflexivity. Qed.

Lemma collect_at_field (result : Props (list Val)) (f : string) (v : Val) :
  f <> "__proto__" -> Event.collect_at result f v = Ok (Event.collect result f v).
Proof.
  intros H. unfold Event.collect_at. apply String.eqb_neq in H. now rewrite H.
Qed.

Lemma map_single_loop (f : string) (evs : list Event.Any) (l : list Val) :
  f <> "__proto__" ->
  Forall (fun e => exists c, collection (Event.data_of e) = Ok c) evs ->
  foldM (fun result event =>
           value <- Event.get event (FPString f) ;;
           Event.collect_at result f value)
        evs [(f, l)] =
  Ok [(f, l ++ List.map (fun e => read e (split_on "." f)) evs)].
Proof.
  intros Hf Hall. revert l.
  induction Hall as [| e evs [c Hc] _ IH]; intros l; cbn [foldM List.map].
  - now rewrite app_nil_r.
  - rewrite (get_read e (FPString f) c Hc). cbn [bind fieldPathToArray].
    rewrite (collect_at_field _ f _ Hf). cbn [bind].
    rewrite collect_same, IH. now rewrite <- app_assoc.
Qed.

Lemma map_single (f : string) (evs : list Event.Any) :
  f <> "__proto__" ->
  Forall (fun e => exists c, collection (Event.data_of e) = Ok c) evs ->
  foldM (fun result event =>
           value <- Event.get event (FPString f) ;;
           Event.collect_at result f value)
        evs [] =
  Ok match evs with
     | [] => []
     | _ => [(f, List.map (fun e => read e (split_on "." f)) evs)]
     end.
Proof.
  intros Hf Hall. destruct Hall as [| e evs [c Hc] Hall]; [reflexivity |].
  cbn [foldM]. rewrite (get_read e (FPString f) c Hc). cbn [bind fieldPathToArray].
  rewrite (collect_at_field _ f _ Hf). cbn [bind].
  rewrite collect_first. now rewrite (map_single_loop f evs _ Hf Hall).
Qed.

(** X11.  [map] with one field name other than __proto__, over an array or
    an Immutable.List of events whose data are collections, returns
    nothing for no event and otherwise one list under that name, holding
    what [get] reads in each event, in input order; a missing field
    contributes undefined.  Leaving the field name out reads "value". *)
Theorem map_single_field (f : string) (evs : list Event.Any) :
  f <> "__proto__" ->
  Forall (fun e => exists c, collection (Event.data_of e) = Ok c) evs ->
  let expected field :=
    Ok match evs with
       | [] => []
       | _ => [(field, List.map (fun e => read e (split_on "." field)) evs)]
       end in
  Event.map (Event.JSArray evs) (Some (Event.MString f)) = expected f /\
  Event.map (Event.ImmutableList evs) (Some (Event.MString f)) = expected f /\
  Event.map (Event.JSArray evs) None = expected "value".
Proof.
  intros Hf Hall expected. unfold Event.map. cbn [bind].
  rewrite (map_single f evs Hf Hall).
  rewrite (map_single "value" evs) by (assumption || discriminate).
  repeat split.
Qed.

Lemma map_single_field_witness :
  Event.map (Event.JSArray [point (Some 1000%Z) [("in", VNum 1)];
                            point (Some 2000%Z) [("out", VNum 4)];
                            point (Some 3000%Z) [("in", VNum 3)]])
            (Some (Event.MString "in"))
  = Ok [("in", [VNum 1; VUndefined; VNum 3])].
Proof.
  apply (map_single_field
           "in" [point (Some 1000%Z) [("in", VNum 1)];
                 point (Some 2000%Z) [("out", VNum 4)];
                 point (Some 3000%Z) [("in", VNum 3)]]).
  - discriminate.
  - repeat constructor; eexists; reflexivity.
Defined.

(** Under the name __proto__ the assignment makes no field of the result:
    the call is not covered. *)
Example map_proto_field :
  Event.map (Event.JSArray [point (Some 1000%Z) [("a", VNum 5)]])
            (Some (Event.MString "__proto__"))
  = Err (OutsideModel "an assignment to __proto__").
Proof. vm_compute. reflexivity. Qed.



(** The inner loop of the last branch of [map], over the entries of one
    event. *)
Lemma collect_entries (entries : list (string * Val)) (result : Props (list Val)) :
  NoDup (keys entries) -> ~ In "__proto__" (keys entries) -> NoDup (keys result) ->
  exists result',
    foldM (fun result kv => Event.collect_at result (Key_toString (fst kv)) (snd kv))
          (List.map (fun kv : string * Val => (KString (fst kv), snd kv)) entries)
          result = Ok result' /\
    NoDup (keys result') /\
    forall f, lookup f result' =
              match lookup f entries with
              | Some x => Some (so_far (lookup f result) ++ [x])
              | None => lookup f result
              end.
Proof.
  revert result.
  induction entries as [| [k x] entries IH]; intros result Hnd Hproto Hres.
  - exists result. split; [reflexivity | split; [assumption | reflexivity]].
  - cbn in Hnd. inversion Hnd as [| ? ? Hnot Hnd']; subst.
    cbn [List.map foldM fst snd Key_toString].
    rewrite collect_at_field by (intros ->; apply Hproto; now left).
    cbn [bind].
    destruct (IH (Event.collect result k x) Hnd')
      as (result' & Hfold & Hnd1 & Hlook).
    { intros Hin. apply Hproto. now right. }
    { now apply keys_collect_NoDup. }
    exists result'. split; [exact Hfold | split; [exact Hnd1 |]].
    intros f. rewrite Hlook, lookup_collect. cbn [lookup].
    rewrite (String.eqb_sym f k).
    destruct (String.eqb k f) eqn:E.
    + apply String.eqb_eq in E. subst f.
      apply lookup_keys_None in Hnot. now rewrite Hnot.
    + reflexivity.
Qed.

(** X13.  [map] with a field spec that is neither left out nor a string, an
    array or a function (null, say), over events whose fields are walked
    by name (no field named __proto__, no numeric [length]), returns one
    list for every field carried by any event: the values of that field,
    rendered plain, from the events that carry it, in input order. *)
Theorem map_every_field (evs : list Event.Any) :
  Forall walked_by_name evs ->
  exists result,
    Event.map (Event.JSArray evs) (Some Event.MOther) = Ok result /\
    forall f, lookup f result = option_map (List.map toJSON) (field_values f evs).
Proof.
  intros Hall. unfold Event.map. cbn [bind].
  assert (H : forall acc, NoDup (keys acc) ->
            exists result,
              foldM (fun result event =>
                       json <- data_toJSON (Event.data_of event) ;;
                       Event.collect_each result json)
                    evs acc = Ok result /\
              NoDup (keys result) /\
              forall f, lookup f result =
                        match option_map (List.map toJSON) (field_values f evs) with
                        | Some vs => Some (so_far (lookup f acc) ++ vs)
                        | None => lookup f acc
                        end).
  { induction Hall as [| e evs (m & Hm & Hnd & Hproto & Hal) _ IH]; intros acc Hacc;
      cbn [foldM field_values].
    - exists acc. split; [reflexivity | split; [assumption | reflexivity]].
    - rewrite Hm. cbn [data_toJSON collection bind toJSON].
      unfold Event.collect_each, each_entries. rewrite array_like_toJSON, Hal.
      cbn [bind].
      set (json := List.map (fun kv : string * Val => let (k, x) := kv in (k, toJSON x))
                            m).
      destruct (collect_entries (own_entries json) acc)
        as (acc1 & Hfold1 & Hnd1 & Hlook1).
      { apply own_entries_NoDup. unfold json. now rewrite keys_map_values. }
      { intros Hin. apply Hproto.
        apply (Permutation_in _ (keys_perm _ _ (own_entries_perm json))) in Hin.
        unfold json in Hin. now rewrite keys_map_values in Hin. }
      { assumption. }
      rewrite Hfold1. cbn [bind].
      destruct (IH _ Hnd1) as (result & Hfold & Hnd' & Hlook).
      exists result. split; [exact Hfold | split; [assumption |]].
      intros f. rewrite Hlook, Hlook1, lookup_enumerated. unfold json.
      rewrite lookup_map_values.
      destruct (lookup f m) as [x |]; cbn [option_map].
      + destruct (field_values f evs) as [vs |]; cbn [option_map so_far List.map].
        * now rewrite <- app_assoc.
        * reflexivity.
      + reflexivity. }
  destruct (H [] (NoDup_nil _)) as (result & Hfold & _ & Hlook).
  exists result. split; [exact Hfold |]. intros f. rewrite Hlook. cbn [lookup so_far app].
  destruct (option_map (List.map toJSON) (field_values f evs)); reflexivity.
Qed.

Lemma map_every_field_witness :
  exists result,
    Event.map (Event.JSArray [point (Some 1000%Z) [("a", VNum 1)];
                              point (Some 2000%Z) [("a", VList [VNum 2]); ("7", VNum 3)]])
              (Some Event.MOther) = Ok result /\
    forall f, lookup f result =
              option_map (List.map toJSON)
                         (field_values f
                            [point (Some 1000%Z) [("a", VNum 1)];
                             point (Some 2000%Z)
                                   [("a", VList [VNum 2]); ("7", VNum 3)]]).
Proof.
  apply (map_every_field
           [point (Some 1000%Z) [("a", VNum 1)];
            point (Some 2000%Z) [("a", VList [VNum 2]); ("7", VNum 3)]]).
  repeat constructor;
    (eexists; split; [reflexivity |];
     split; [repeat constructor; cbn; intuition discriminate |];
     split; [cbn; intuition discriminate | reflexivity]).
Defined.

(** Data with a numeric [length] are walked by index: the lists collected
    are those of "0" and "1", each holding an undefined. *)
Example map_length_field :
  Event.map (Event.JSArray [point (Some 1000%Z) [("length", VNum 2); ("a", VNum 5)]])
            (Some Event.MOther)
  = Ok [("0", [VUndefined]); ("1", [VUndefined])].
Proof. vm_compute. reflexivity. Qed.

(** * Further properties of the gap filler *)

(** ** Counters and collections *)

(** A stored count is the count of its key, and of no other. *)
Lemma count_of_store (kc : Props Z) (k k' : string) (v : Z) :
  Filler.count_of (Filler.store k v kc) k' =
  if (String.eqb k k' && negb (String.eqb k "__proto__"))%bool
  then v else Filler.count_of kc k'.
Proof.
  unfold Filler.count_of, Filler.store.
  destruct (String.eqb k "__proto__") eqn:Ek.
  - now rewrite andb_false_r.
  - rewrite andb_true_r. destruct (String.eqb k k') eqn:E.
    + apply String.eqb_eq in E. subst k'. now rewrite Ek, lookup_set_same.
    + destruct (String.eqb k' "__proto__"); [reflexivity |].
      rewrite lookup_set_other; [reflexivity |].
      intros ->. now rewrite String.eqb_refl in E.
Qed.

(** The count of a key that is stored under itself. *)
Lemma count_of_store_same (kc : Props Z) (k : string) (v : Z) :
  k <> "__proto__" -> Filler.count_of (Filler.store k v kc) k = v.
Proof.
  intros H. rewrite count_of_store, String.eqb_refl.
  apply String.eqb_neq in H. now rewrite H.
Qed.

Lemma count_of_ensure (kc : Props Z) (k k' : string) :
  Filler.count_of (if negb (has k kc) then Filler.store k 0%Z kc else kc) k' =
  Filler.count_of kc k'.
Proof.
  unfold has. destruct (lookup k kc) eqn:L; cbn [negb]; [reflexivity |].
  rewrite count_of_store.
  destruct (String.eqb k k' && negb (String.eqb k "__proto__"))%bool eqn:E;
    [| reflexivity].
  apply andb_true_iff in E. destruct E as [E _].
  apply String.eqb_eq in E. subst k'. unfold Filler.count_of. rewrite L.
  destruct (String.eqb k "__proto__"); reflexivity.
Qed.

(** Off the one name that is never stored, the limit is tested on the
    count. *)
Lemma limit_hit_at_named (limit : option Z) (kc : Props Z) (k : string) :
  k <> "__proto__" ->
  Filler.limit_hit_at limit kc k = Filler.limit_hit limit (Filler.count_of kc k).
Proof.
  intros H. unfold Filler.limit_hit_at. apply String.eqb_neq in H. now rewrite H.
Qed.

Lemma collection_inv (v c : Val) :
  collection v = Ok c -> c = v /\ dataFromArg v = Ok v.
Proof. destruct v; intros H; try discriminate H; injection H as <-; split; reflexivity. Qed.

(** An event given its own data back, on any of the three classes. *)
Lemma setData_of_own (ev : Event.Any) :
  well_formed ev -> Event.setData_of ev (Event.data_of ev) = Ok ev.
Proof.
  intros [[c Hc] Hwf]. pose proof (collection_inv _ _ Hc) as [_ Hd].
  destruct ev as [p | i | r]; cbn [Event.setData_of Event.data_of] in *.
  - rewrite (setData_ok p _ _ Hwf Hd). cbn [bind]. destruct p as [d].
    cbn [Event._d]. do 3 f_equal. apply set_lookup_same.
    unfold Event.data, Map_get in *. cbn [Event._d] in *.
    destruct (lookup "data" d); [reflexivity | discriminate Hc].
  - unfold IndexedEvent.setData. rewrite Hd. now destruct i.
  - unfold TimeRangeEvent.setData. rewrite Hd. now destruct r.
Qed.

(** ** Events the filler passes on as they are *)

(** One turn of the loop leaves the data alone when the value at the path
    is absent or not missing, and also when the method is pad and no event
    has been emitted yet. *)
Lemma padAndZero_step_unchanged (f : Filler.t) (kc : Props Z) (d c : Val)
      (p : FieldPath) :
  collection d = Ok c ->
  (forall v, getIn_opt d (fieldPathToArray p) = Some v -> isMissing v = false) \/
  (Filler._method f = "pad" /\ Filler._previousEvent f = None) ->
  exists kc',
    Filler.padAndZero_step f (kc, d) p = Ok (kc', d) /\
    forall K, Filler.count_of kc' K =
              match getIn_opt d (fieldPathToArray p) with
              | Some v => if (negb (isMissing v)
                              && String.eqb (String.concat ":" (fieldPathToArray p)) K)%bool
                          then 0%Z else Filler.count_of kc K
              | None => Filler.count_of kc K
              end.
Proof.
  intros Hc Hcase. unfold Filler.padAndZero_step, hasIn, getIn.
  rewrite Hc. cbn [bind]. apply collection_inv in Hc. destruct Hc as [-> _].
  set (path := fieldPathToArray p). set (key := String.concat ":" path).
  destruct (getIn_opt d path) as [v |] eqn:G; cbn [negb bind].
  - destruct (isMissing v) eqn:M; cbn [negb andb].
    + destruct Hcase as [Hgap | [Hm Hp]]; [rewrite (Hgap v G) in M; discriminate |].
      rewrite Hm, Hp.
      destruct (Filler.limit_hit_at _ _ _); eexists; (split; [reflexivity |]);
        intros K; apply count_of_ensure.
    + eexists. split; [reflexivity |]. intros K. rewrite count_of_store.
      destruct (String.eqb key K) eqn:EK; cbn [andb];
        [| apply count_of_ensure].
      destruct (String.eqb key "__proto__") eqn:Ep; cbn [negb]; [| reflexivity].
      apply String.eqb_eq in EK, Ep. subst K. rewrite Ep. reflexivity.
  - eexists. split; [reflexivity |]. intros K. apply count_of_ensure.
Qed.

Lemma padAndZero_unchanged (f : Filler.t) (paths : list FieldPath) (kc : Props Z)
      (d c : Val) :
  collection d = Ok c ->
  (forall p, In p paths ->
             (forall v, getIn_opt d (fieldPathToArray p) = Some v ->
                        isMissing v = false) \/
             (Filler._method f = "pad" /\ Filler._previousEvent f = None)) ->
  exists kc',
    foldM (Filler.padAndZero_step f) paths (kc, d) = Ok (kc', d) /\
    ((forall p v, In p paths -> getIn_opt d (fieldPathToArray p) = Some v ->
                  isMissing v = false) ->
     forall p v, In p paths -> getIn_opt d (fieldPathToArray p) = Some v ->
                 Filler.count_of kc' (String.concat ":" (fieldPathToArray p)) = 0%Z).
Proof.
  intros Hc. revert kc. induction paths as [| p paths IH]; intros kc Hcase; cbn [foldM].
  - exists kc. split; [reflexivity |]. intros _ p v [].
  - destruct (padAndZero_step_unchanged f kc d c p Hc (Hcase p (or_introl eq_refl)))
      as (kc1 & -> & Hkc1).
    cbn [bind].
    destruct (IH kc1 (fun q Hq => Hcase q (or_intror Hq))) as (kc' & Hfold & Hzero).
    exists kc'. split; [exact Hfold |].
    intros Hgap q v Hq Hv.
    assert (Hstay : forall K, Filler.count_of kc1 K = 0%Z -> Filler.count_of kc' K = 0%Z).
    { clear - Hfold Hc Hgap. revert kc1 Hfold.
      induction paths as [| r paths IHp]; intros kc1 Hfold K HK; cbn [foldM] in Hfold.
      - now injection Hfold as <-.
      - destruct (padAndZero_step_unchanged
                    f kc1 d c r Hc
                    (or_introl (fun v Hv => Hgap r v (or_intror (or_introl eq_refl)) Hv)))
          as (kc2 & Hstep & Hkc2).
        rewrite Hstep in Hfold. cbn [bind] in Hfold.
        apply (IHp (fun q v Hq => Hgap q v
                                         (match Hq with
                                          | or_introl E => or_introl E
                                          | or_intror H => or_intror (or_intror H)
                                          end)) kc2 Hfold).
        rewrite Hkc2. destruct (getIn_opt d (fieldPathToArray r)) as [w |]; [| exact HK].
        destruct (negb (isMissing w) && _)%bool; [reflexivity | exact HK]. }
    destruct Hq as [<- | Hq].
    + apply Hstay. rewrite Hkc1, Hv.
      rewrite (Hgap p v (or_introl eq_refl) Hv), String.eqb_refl. reflexivity.
    + apply (Hzero (fun q' v' Hq' => Hgap q' v' (or_intror Hq')) q v Hq Hv).
Qed.

(** X14.  With method pad and no event emitted so far, [addEvent] emits the
    event exactly as it came, whatever its gaps, the configured paths and
    the limit, and records it as the previous event. *)
Theorem pad_without_previous (f : Filler.t) (e : Event.Any) :
  Processor.hasObservers (Filler.base f) = true ->
  Filler._method f = "pad" -> Filler._previousEvent f = None ->
  well_formed e ->
  exists f', Filler.addEvent f e = Ok (f', [e]) /\
             Filler._previousEvent f' = Some e.
Proof.
  intros Hobs Hm Hp Hwf. unfold Filler.addEvent. rewrite Hobs.
  destruct Hwf as [[c Hc] Hinv].
  assert (Hpaths : exists paths,
             (if Filler.falsy (Filler._fieldSpec f)
              then c <- collection (Event.data_of e) ;;
                   Ok (List.map FPArray (generatePaths (toJS c)))
              else Ok (Filler.paths_of (Filler._fieldSpec f))) = Ok paths).
  { destruct (Filler.falsy _); [rewrite Hc |]; eexists; reflexivity. }
  destruct Hpaths as [paths ->]. cbn [bind]. rewrite Hm. cbn [String.eqb Ascii.eqb
    Bool.eqb orb]. unfold Filler._padAndZero.
  destruct (padAndZero_unchanged f paths (Filler._keyCount f) _ c Hc) as (kc' & -> & _).
  { intros p _. right. now split. }
  cbn [bind]. rewrite setData_of_own by (split; [now exists c | assumption]).
  cbn [bind]. eexists. split; reflexivity.
Qed.

Lemma pad_without_previous_witness :
  exists f', Filler.addEvent
               (Filler.mk (Processor.mk true VUndefined)
                          (Filler.FSArray ["in"; "out"]) "pad" (Some 2%Z) None
                          [] None [])
               (point (Some 1000%Z) [("in", VNull); ("out", VNum 3)])
             = Ok (f', [point (Some 1000%Z) [("in", VNull); ("out", VNum 3)]]) /\
             Filler._previousEvent f' =
             Some (point (Some 1000%Z) [("in", VNull); ("out", VNum 3)]).
Proof.
  apply (pad_without_previous
           (Filler.mk (Processor.mk true VUndefined)
                      (Filler.FSArray ["in"; "out"]) "pad" (Some 2%Z) None [] None [])
           (point (Some 1000%Z) [("in", VNull); ("out", VNum 3)])).
  - reflexivity.
  - reflexivity.
  - reflexivity.
  - split; [eexists; reflexivity | split; reflexivity].
Defined.

(** X15.  With method zero or pad, an event that has no missing value at any of
    the configured paths is emitted exactly as it came, and the counter of
    every configured path the event carries is back at 0. *)
Theorem event_without_gap (f : Filler.t) (e : Event.Any) (names : list string) :
  Processor.hasObservers (Filler.base f) = true ->
  Filler._method f = "zero" \/ Filler._method f = "pad" ->
  Filler._fieldSpec f = Filler.FSArray names ->
  well_formed e ->
  no_gap (List.map FPString names) (Event.data_of e) ->
  exists f',
    Filler.addEvent f e = Ok (f', [e]) /\
    forall n v, In n names ->
                getIn_opt (Event.data_of e) (split_on "." n) = Some v ->
                Filler.count_of (Filler._keyCount f')
                                (String.concat ":" (split_on "." n)) = 0%Z.
Proof.
  intros Hobs Hm Hfs Hwf Hgap. unfold Filler.addEvent. rewrite Hobs, Hfs.
  cbn [Filler.falsy Filler.paths_of bind].
  destruct Hwf as [[c Hc] Hinv].
  assert (Hmeth : (String.eqb (Filler._method f) "zero"
                   || String.eqb (Filler._method f) "pad")%bool = true)
    by (destruct Hm as [-> | ->]; reflexivity).
  rewrite Hmeth. unfold Filler._padAndZero.
  destruct (padAndZero_unchanged f (List.map FPString names) (Filler._keyCount f)
                                 _ c Hc) as (kc' & -> & Hzero).
  { intros p Hp. left. intros v Hv. exact (Hgap p v Hp Hv). }
  cbn [bind]. rewrite setData_of_own by (split; [now exists c | assumption]).
  cbn [bind]. eexists. split; [reflexivity |].
  intros n v Hn Hv. cbn.
  apply (Hzero Hgap (FPString n) v); [now apply in_map | exact Hv].
Qed.

Lemma event_without_gap_witness :
  exists f',
    Filler.addEvent
      (Filler.mk (Processor.mk true VUndefined) (Filler.FSArray ["in"; "out"])
                 "zero" (Some 2%Z) None [("in", 2%Z)] None [])
      (point (Some 1000%Z) [("in", VNum 7)])
    = Ok (f', [point (Some 1000%Z) [("in", VNum 7)]]) /\
    forall n v, In n ["in"; "out"] ->
                getIn_opt (Event.data_of (point (Some 1000%Z) [("in", VNum 7)]))
                          (split_on "." n) = Some v ->
                Filler.count_of (Filler._keyCount f')
                                (String.concat ":" (split_on "." n)) = 0%Z.
Proof.
  apply (event_without_gap
           (Filler.mk (Processor.mk true VUndefined) (Filler.FSArray ["in"; "out"])
                      "zero" (Some 2%Z) None [("in", 2%Z)] None [])
           (point (Some 1000%Z) [("in", VNum 7)]) ["in"; "out"]).
  - reflexivity.
  - now left.
  - reflexivity.
  - split; [eexists; reflexivity | split; reflexivity].
  - intros p v [<- | [<- | []]] Hv; vm_compute in Hv; [now injection Hv as <- | discriminate].
Defined.

(** ** Zero fill under a limit *)

Lemma zero_gap_step (f : Filler.t) (t : TimeValue) (m : Val) (n : Z) :
  Processor.hasObservers (Filler.base f) = true ->
  Filler._fieldSpec f = Filler.FSArray ["value"] ->
  Filler._method f = "zero" -> Filler._limit f = Some n -> (0 < n)%Z ->
  isMissing m = true ->
  exists f',
    Filler.addEvent f (value_event t m) =
    Ok (f', [value_event t (if (Filler.count_of (Filler._keyCount f) "value" <? n)%Z
                            then VNum 0 else m)]) /\
    Processor.hasObservers (Filler.base f') = true /\
    Filler._fieldSpec f' = Filler.FSArray ["value"] /\
    Filler._method f' = "zero" /\ Filler._limit f' = Some n /\
    Filler.count_of (Filler._keyCount f') "value" =
    (if (Filler.count_of (Filler._keyCount f) "value" <? n)%Z
     then Filler.count_of (Filler._keyCount f) "value" + 1
     else Filler.count_of (Filler._keyCount f) "value")%Z.
Proof.
  intros Hobs Hfs Hm Hl Hn Hmiss.
  destruct f as [[ho fsv] fs meth lim prev kc lg cache]. cbn in Hobs, Hfs, Hm, Hl.
  subst ho fs meth lim. cbn [Filler._keyCount].
  unfold Filler.addEvent.
  cbn [Filler.base Processor.hasObservers Filler._fieldSpec Filler.falsy Filler.paths_of
       List.map bind Filler._method String.eqb Ascii.eqb Bool.eqb orb].
  unfold Filler._padAndZero. cbn [foldM Filler._keyCount].
  unfold Filler.padAndZero_step.
  cbn [fieldPathToArray split_on Ascii.eqb Bool.eqb String.concat].
  rewrite (limit_hit_at_named (Some n) _ "value") by discriminate.
  rewrite !count_of_ensure. set (c := Filler.count_of kc "value").
  set (kc1 := if negb (has "value" kc) then Filler.store "value" 0%Z kc else kc).
  cbn -[Z.add Z.ltb Z.leb Z.eqb Filler.store has Filler.count_of kc1 c].
  rewrite Hmiss.
  replace (n =? 0)%Z with false by (symmetry; apply Z.eqb_neq; lia).
  cbn [negb andb]. rewrite (Z.leb_antisym c n).
  destruct (c <? n)%Z; cbn -[Z.add Filler.store has Filler.count_of kc1 c].
  - eexists. split; [reflexivity |]. repeat split.
    unfold Filler.with_previousEvent, Filler.with_keyCount. cbn [Filler._keyCount].
    rewrite count_of_store_same by discriminate. reflexivity.
  - eexists. split; [reflexivity |]. repeat split.
    unfold Filler.with_previousEvent, Filler.with_keyCount. cbn [Filler._keyCount].
    subst kc1 c. apply count_of_ensure.
Qed.

(** X16.  Zero fill with a limit [n] above 0 on the path "value", fed a run of
    any length of events whose value is missing: every call emits one
    event, filled with 0 as long as the counter is below [n] and left as
    it came from then on. *)
Theorem zero_fill_run (f : Filler.t) (n : Z) (gaps : list (TimeValue * Val)) :
  Processor.hasObservers (Filler.base f) = true ->
  Filler._fieldSpec f = Filler.FSArray ["value"] ->
  Filler._method f = "zero" -> Filler._limit f = Some n -> (0 < n)%Z ->
  Forall (fun g => isMissing (snd g) = true) gaps ->
  exists trace,
    Filler.run f (List.map (fun g => value_event (fst g) (snd g)) gaps) = Ok trace /\
    emitted trace = zero_run n (Filler.count_of (Filler._keyCount f) "value") gaps.
Proof.
  intros Hobs Hfs Hm Hl Hn Hall. revert f Hobs Hfs Hm Hl.
  induction Hall as [| [t m] gaps Hmiss _ IH]; intros f Hobs Hfs Hm Hl;
    cbn [List.map Filler.run zero_run fst snd].
  - exists []. split; reflexivity.
  - cbn [snd] in Hmiss.
    destruct (zero_gap_step f t m n Hobs Hfs Hm Hl Hn Hmiss)
      as (f' & -> & Hobs' & Hfs' & Hm' & Hl' & Hc').
    cbn [bind]. destruct (IH f' Hobs' Hfs' Hm' Hl') as (trace & -> & Htrace).
    cbn [bind]. eexists. split; [reflexivity |].
    unfold emitted in *. cbn [List.map snd]. rewrite Htrace, Hc'.
    destruct (_ <? n)%Z; reflexivity.
Qed.

Lemma zero_fill_run_witness :
  exists trace,
    Filler.run
      (Filler.mk (Processor.mk true VUndefined) (Filler.FSArray ["value"]) "zero"
                 (Some 2%Z) None [] None [])
      (List.map (fun g => value_event (fst g) (snd g))
                [(Some 1%Z, VNull); (Some 2%Z, VNaN); (Some 3%Z, VUndefined)])
    = Ok trace /\
    emitted trace =
    [[value_event (Some 1%Z) (VNum 0)]; [value_event (Some 2%Z) (VNum 0)];
     [value_event (Some 3%Z) VUndefined]].
Proof.
  apply (zero_fill_run
           (Filler.mk (Processor.mk true VUndefined) (Filler.FSArray ["value"]) "zero"
                      (Some 2%Z) None [] None [])
           2 [(Some 1%Z, VNull); (Some 2%Z, VNaN); (Some 3%Z, VUndefined)]).
  - reflexivity.
  - reflexivity.
  - reflexivity.
  - reflexivity.
  - lia.
  - repeat constructor.
Defined.

(** ** Pad fill without a limit *)

Lemma pad_gap_step (f : Filler.t) (t0 t : TimeValue) (v m : Val) :
  Processor.hasObservers (Filler.base f) = true ->
  Filler._fieldSpec f = Filler.FSArray ["value"] ->
  Filler._method f = "pad" -> Filler._limit f = None ->
  Filler._previousEvent f = Some (value_event t0 v) ->
  isMissing v = false -> isMissing m = true ->
  exists f',
    Filler.addEvent f (value_event t m) = Ok (f', [value_event t v]) /\
    Processor.hasObservers (Filler.base f') = true /\
    Filler._fieldSpec f' = Filler.FSArray ["value"] /\
    Filler._method f' = "pad" /\ Filler._limit f' = None /\
    Filler._previousEvent f' = Some (value_event t v).
Proof.
  intros Hobs Hfs Hm Hl Hprev Hv Hmiss.
  destruct f as [[ho fsv] fs meth lim prev kc lg cache].
  cbn in Hobs, Hfs, Hm, Hl, Hprev. subst ho fs meth lim prev.
  unfold Filler.addEvent.
  cbn [Filler.base Processor.hasObservers Filler._fieldSpec Filler.falsy Filler.paths_of
       List.map bind Filler._method String.eqb Ascii.eqb Bool.eqb orb].
  unfold Filler._padAndZero. cbn [foldM Filler._keyCount].
  unfold Filler.padAndZero_step.
  cbn [fieldPathToArray split_on Ascii.eqb Bool.eqb String.concat].
  set (kc1 := if negb (has "value" kc) then Filler.store "value" 0%Z kc else kc).
  cbn -[Z.add Filler.store has Filler.count_of kc1].
  rewrite Hmiss. cbn -[Z.add Filler.store has Filler.count_of kc1].
  rewrite Hv. cbn -[Z.add Filler.store has Filler.count_of kc1].
  eexists. split; [reflexivity |]. repeat split.
Qed.

(** X17.  Pad fill without a limit on the path "value", once an event with a
    value has been emitted: of a run of any length of events whose value is
    missing, every one is emitted with that value. *)
Theorem pad_fill_run (f : Filler.t) (t0 : TimeValue) (v : Val)
        (gaps : list (TimeValue * Val)) :
  Processor.hasObservers (Filler.base f) = true ->
  Filler._fieldSpec f = Filler.FSArray ["value"] ->
  Filler._method f = "pad" -> Filler._limit f = None ->
  Filler._previousEvent f = Some (value_event t0 v) -> isMissing v = false ->
  Forall (fun g => isMissing (snd g) = true) gaps ->
  exists trace,
    Filler.run f (List.map (fun g => value_event (fst g) (snd g)) gaps) = Ok trace /\
    emitted trace = List.map (fun g => [value_event (fst g) v]) gaps.
Proof.
  intros Hobs Hfs Hm Hl Hprev Hv Hall. revert f t0 Hobs Hfs Hm Hl Hprev.
  induction Hall as [| [t m] gaps Hmiss _ IH]; intros f t0 Hobs Hfs Hm Hl Hprev;
    cbn [List.map Filler.run fst snd].
  - exists []. split; reflexivity.
  - cbn [snd] in Hmiss.
    destruct (pad_gap_step f t0 t v m Hobs Hfs Hm Hl Hprev Hv Hmiss)
      as (f' & -> & Hobs' & Hfs' & Hm' & Hl' & Hprev').
    cbn [bind]. destruct (IH f' t Hobs' Hfs' Hm' Hl' Hprev') as (trace & -> & Htrace).
    cbn [bind]. eexists. split; [reflexivity |].
    unfold emitted in *. cbn [List.map snd]. now rewrite Htrace.
Qed.

Lemma pad_fill_run_witness :
  exists trace,
    Filler.run
      (Filler.mk (Processor.mk true VUndefined) (Filler.FSArray ["value"]) "pad"
                 None (Some (value_event (Some 0%Z) (VNum 3))) [] None [])
      (List.map (fun g => value_event (fst g) (snd g))
                [(Some 1%Z, VNull); (Some 2%Z, VNaN); (Some 3%Z, VUndefined)])
    = Ok trace /\
    emitted trace =
    List.map (fun g => [value_event (fst g) (VNum 3)])
             [(Some 1%Z, VNull); (Some 2%Z, VNaN); (Some 3%Z, VUndefined)].
Proof.
  apply (pad_fill_run
           (Filler.mk (Processor.mk true VUndefined) (Filler.FSArray ["value"]) "pad"
                      None (Some (value_event (Some 0%Z) (VNum 3))) [] None [])
           (Some 0%Z) (VNum 3)
           [(Some 1%Z, VNull); (Some 2%Z, VNaN); (Some 3%Z, VUndefined)]).
  - reflexivity.
  - reflexivity.
  - reflexivity.
  - reflexivity.
  - reflexivity.
  - reflexivity.
  - repeat constructor.
Defined.

(** ** A limit of 0 *)

Lemma foldM_ext {A S : Type} (f g : S -> A -> Result S) (l : list A) (s : S) :
  (forall s a, f s a = g s a) -> foldM f l s = foldM g l s.
Proof.
  intros H. revert s. induction l as [| a l IH]; intros s; cbn; [reflexivity |].
  rewrite H. destruct (g s a); cbn; auto.
Qed.

Lemma padAndZero_step_limit_zero (f : Filler.t) (st : Props Z * Val) (p : FieldPath) :
  Filler._limit f = Some 0%Z ->
  Filler.padAndZero_step f st p = Filler.padAndZero_step (with_limit f None) st p.
Proof.
  intros Hl. destruct f as [b fs meth lim prev kc lg cache]. cbn in Hl. subst lim.
  destruct st as [kc0 d]. reflexivity.
Qed.

(** X18.  For zero and pad fill a limit of 0 is no limit at all: the processor
    emits what it would emit without one. *)
Theorem limit_zero_is_no_limit (f : Filler.t) (e : Event.Any) :
  Filler._limit f = Some 0%Z -> Filler._method f <> "linear" ->
  emitted_by (Filler.addEvent f e) = emitted_by (Filler.addEvent (with_limit f None) e).
Proof.
  intros Hl Hm. unfold Filler.addEvent.
  cbn [with_limit Filler.base Filler._fieldSpec Filler._method].
  destruct (Processor.hasObservers (Filler.base f)); [| reflexivity].
  match goal with |- context [bind ?c _] => destruct c as [paths | err] end;
    [| reflexivity].
  cbn [bind].
  destruct (String.eqb (Filler._method f) "zero" || String.eqb (Filler._method f) "pad")%bool.
  - unfold Filler._padAndZero. cbn [with_limit Filler._keyCount].
    rewrite (foldM_ext _ _ paths _ (fun st p => padAndZero_step_limit_zero f st p Hl)).
    destruct (foldM _ paths _) as [[kc' d'] |]; [| reflexivity]. cbn [bind].
    destruct (Event.setData_of e d'); reflexivity.
  - destruct (String.eqb (Filler._method f) "linear") eqn:E; [| reflexivity].
    apply String.eqb_eq in E. contradiction.
Qed.

Lemma limit_zero_is_no_limit_witness :
  emitted_by (Filler.addEvent
                (Filler.mk (Processor.mk true VUndefined) (Filler.FSArray ["value"])
                           "zero" (Some 0%Z) None [("value", 5%Z)] None [])
                (value_event (Some 1%Z) VNull)) =
  emitted_by (Filler.addEvent
                (with_limit
                   (Filler.mk (Processor.mk true VUndefined) (Filler.FSArray ["value"])
                              "zero" (Some 0%Z) None [("value", 5%Z)] None [])
                   None)
                (value_event (Some 1%Z) VNull)).
Proof.
  apply (limit_zero_is_no_limit
           (Filler.mk (Processor.mk true VUndefined) (Filler.FSArray ["value"])
                      "zero" (Some 0%Z) None [("value", 5%Z)] None [])
           (value_event (Some 1%Z) VNull)).
  - reflexivity.
  - discriminate.
Defined.

(** ** What a call keeps *)

Lemma ensure_bounds (n : Z) (kc : Props Z) (key : string) :
  (forall k, 0 <= Filler.count_of kc k <= n)%Z ->
  forall k, (0 <= Filler.count_of
                    (if negb (has key kc) then Filler.store key 0%Z kc else kc) k
             <= n)%Z.
Proof. intros H k. rewrite count_of_ensure. apply H. Qed.

Lemma store_bounds (n v : Z) (kc : Props Z) (key : string) :
  (0 <= v <= n)%Z ->
  (forall k, 0 <= Filler.count_of kc k <= n)%Z ->
  forall k, (0 <= Filler.count_of (Filler.store key v kc) k <= n)%Z.
Proof.
  intros Hv H k. rewrite count_of_store.
  destruct (String.eqb key k && negb (String.eqb key "__proto__"))%bool; auto.
Qed.

Lemma padAndZero_step_bounds (f : Filler.t) (n : Z) (kc kc' : Props Z) (d d' : Val)
      (p : FieldPath) :
  Filler._limit f = Some n -> (0 < n)%Z ->
  Filler.padAndZero_step f (kc, d) p = Ok (kc', d') ->
  (forall k, 0 <= Filler.count_of kc k <= n)%Z ->
  forall k, (0 <= Filler.count_of kc' k <= n)%Z.
Proof.
  intros Hl Hn Hstep Hb. unfold Filler.padAndZero_step in Hstep. rewrite Hl in Hstep.
  set (key := String.concat ":" (fieldPathToArray p)) in *.
  pose proof (ensure_bounds n kc key Hb) as Hb1.
  set (kc1 := if negb (has key kc) then Filler.store key 0%Z kc else kc) in *.
  assert (Hinc : Filler.limit_hit_at (Some n) kc1 key = false ->
                 forall k, (0 <= Filler.count_of
                                   (Filler.store key (Filler.count_of kc1 key + 1)%Z kc1) k
                            <= n)%Z).
  { intros Hhit k. rewrite count_of_store.
    destruct (String.eqb key k && negb (String.eqb key "__proto__"))%bool eqn:E;
      [| apply Hb1].
    apply andb_true_iff in E. destruct E as [_ E].
    unfold Filler.limit_hit_at in Hhit. rewrite E in Hhit. cbn [andb] in Hhit.
    unfold Filler.limit_hit in Hhit.
    replace (n =? 0)%Z with false in Hhit by (symmetry; apply Z.eqb_neq; lia).
    cbn [negb andb] in Hhit. apply Z.leb_gt in Hhit.
    specialize (Hb1 key). lia. }
  destruct (hasIn d (fieldPathToArray p)) as [present |]; [| discriminate].
  cbn [bind] in Hstep. destruct present; cbn [negb] in Hstep;
    [| injection Hstep as <- _; assumption].
  destruct (getIn d (fieldPathToArray p)) as [val |]; [| discriminate].
  cbn [bind] in Hstep. destruct (isMissing val).
  - destruct (Filler.limit_hit_at (Some n) kc1 key) eqn:Hhit;
      [injection Hstep as <- _; assumption |].
    destruct (String.eqb (Filler._method f) "zero").
    + destruct (setIn d (fieldPathToArray p) (VNum 0)); [| discriminate].
      cbn [bind] in Hstep. injection Hstep as <- _. now apply Hinc.
    + destruct (String.eqb (Filler._method f) "pad");
        [| injection Hstep as <- _; assumption].
      destruct (Filler._previousEvent f) as [prev |];
        [| injection Hstep as <- _; assumption].
      destruct (getIn (Event.data_of prev) (fieldPathToArray p)) as [prevVal |];
        [| discriminate].
      cbn [bind] in Hstep. destruct (negb (isMissing prevVal));
        [| injection Hstep as <- _; assumption].
      destruct (setIn d (fieldPathToArray p) prevVal); [| discriminate].
      cbn [bind] in Hstep. injection Hstep as <- _. now apply Hinc.
  - injection Hstep as <- _. apply store_bounds; [lia | assumption].
Qed.

Lemma padAndZero_bounds (f : Filler.t) (n : Z) (paths : list FieldPath)
      (kc kc' : Props Z) (d d' : Val) :
  Filler._limit f = Some n -> (0 < n)%Z ->
  foldM (Filler.padAndZero_step f) paths (kc, d) = Ok (kc', d') ->
  (forall k, 0 <= Filler.count_of kc k <= n)%Z ->
  forall k, (0 <= Filler.count_of kc' k <= n)%Z.
Proof.
  intros Hl Hn. revert kc d. induction paths as [| p paths IH]; intros kc d Hfold Hb;
    cbn [foldM] in Hfold.
  - injection Hfold as <- _. assumption.
  - destruct (Filler.padAndZero_step f (kc, d) p) as [[kc1 d1] |] eqn:Hstep;
      [| discriminate].
    cbn [bind] in Hfold. apply (IH kc1 d1 Hfold).
    exact (padAndZero_step_bounds f n kc kc1 d d1 p Hl Hn Hstep Hb).
Qed.

(** What a call of [addEvent] leaves as it was: the base, the field spec,
    the method and the limit. *)
Lemma addEvent_config (f f' : Filler.t) (e : Event.Any) (out : list Event.Any) :
  Filler.addEvent f e = Ok (f', out) ->
  Filler.base f' = Filler.base f /\ Filler._fieldSpec f' = Filler._fieldSpec f /\
  Filler._method f' = Filler._method f /\ Filler._limit f' = Filler._limit f /\
  (Filler._keyCount f' = Filler._keyCount f \/
   exists paths kc' d',
     (String.eqb (Filler._method f) "zero" || String.eqb (Filler._method f) "pad")%bool
     = true /\
     foldM (Filler.padAndZero_step f) paths (Filler._keyCount f, Event.data_of e)
     = Ok (kc', d') /\ Filler._keyCount f' = kc').
Proof.
  unfold Filler.addEvent. intros H.
  destruct (Processor.hasObservers (Filler.base f));
    [| injection H as <- _; repeat split; now left].
  match type of H with context [bind ?c _] => destruct c as [paths | err] end;
    [| discriminate].
  cbn [bind] in H.
  destruct (String.eqb (Filler._method f) "zero" || String.eqb (Filler._method f) "pad")%bool
           eqn:Hzp.
  - unfold Filler._padAndZero in H.
    destruct (foldM (Filler.padAndZero_step f) paths _) as [[kc' d'] |] eqn:Hfold;
      [| discriminate].
    cbn [bind] in H. destruct (Event.setData_of e d'); [| discriminate].
    cbn [bind] in H. injection H as <- _. repeat split. right.
    exists paths, kc', d'. repeat split. exact Hfold.
  - destruct (String.eqb (Filler._method f) "linear");
      [| injection H as <- _; repeat split; now left].
    unfold Filler._linearFill in H. discriminate H.
Qed.



(** X20.  Under a limit [n] above 0 no counter leaves the range from 0 to [n]:
    if all counters lie in it before a call of [addEvent], they do after
    it. *)
Theorem counters_stay_bounded (f f' : Filler.t) (n : Z) (e : Event.Any)
        (out : list Event.Any) :
  Filler._limit f = Some n -> (0 < n)%Z -> bounded n f ->
  Filler.addEvent f e = Ok (f', out) -> bounded n f'.
Proof.
  intros Hl Hn Hb H. unfold bounded in *.
  destruct (addEvent_config f f' e out H)
    as (_ & _ & _ & _ & [-> | (paths & kc' & d' & _ & Hfold & ->)]); [assumption |].
  exact (padAndZero_bounds f n paths _ kc' _ d' Hl Hn Hfold Hb).
Qed.

Lemma counters_stay_bounded_witness :
  bounded 1 (Filler.mk (Processor.mk true VUndefined) (Filler.FSArray ["value"]) "zero"
                       (Some 1%Z) (Some (value_event (Some 1%Z) (VNum 0)))
                       [("value", 1%Z)] None []).
Proof.
  apply (counters_stay_bounded
           (Filler.mk (Processor.mk true VUndefined) (Filler.FSArray ["value"]) "zero"
                      (Some 1%Z) None [] None [])
           _ 1 (value_event (Some 1%Z) VNull) [value_event (Some 1%Z) (VNum 0)]).
  - reflexivity.
  - lia.
  - intros k. unfold Filler.count_of. cbn [Filler._keyCount lookup].
    destruct (String.eqb k "__proto__"); lia.
  - reflexivity.
Defined.
